(** * open-drop: the in-page WebRTC negotiation of [src/js/main.js]

    The script keeps its whole session in module-level variables
    ([localStream], [localPeerConnection], [remotePeerConnection], the
    three buttons) and drives two [RTCPeerConnection] objects of the same
    page through the offer/answer exchange and the ICE candidate relay.

    The embedding is an event-driven state machine:
    - the module-level variables are the fields of [state];
    - the peer-connection objects live in a heap ([list peer]) and the two
      variables hold references into it, so that object identity ([===])
      and stale references behave as in the script;
    - an [async] function is cut at each [await]: the part before it runs
      inside the event that called the function, and the awaited promise
      is recorded in [pending]; the part after it runs when the
      environment settles that promise ([Settle]);
    - an exception that leaves a handler is returned next to the state.

    The handlers that render or time the video ([gotRemoteMediaStream],
    [logVideoLoaded], [logResizedVideo]) write [remoteStream], the video
    elements, [startTime] and the console only, and are left out.

    The browser is the environment: it decides when a pending promise
    settles and with which outcome, and when a peer connection reports a
    candidate.  It is left free: any promise in flight may settle at any
    time, also one of a connection closed since, and any object may
    report a candidate.  What the browser API does to a peer-connection
    object is written out in the section "Browser objects". *)

From Stdlib Require Import ZArith String Ascii List Bool Lia.
From stdpp Require Import base tactics option list strings.

Local Open Scope string_scope.

(* ------------------------------------------------------------------ *)
(** ** Strings *)

(** The line feed written [\n] in the template literals. *)
Definition nl : string := String "010"%char EmptyString.

(** White space and line terminators in the ASCII range, as
    [String.prototype.trim] removes them. *)
Definition is_space (c : ascii) : bool :=
  (Ascii.eqb c "009" || Ascii.eqb c "010" || Ascii.eqb c "011" ||
   Ascii.eqb c "012" || Ascii.eqb c "013" || Ascii.eqb c " ")%char.

Fixpoint trimStart (s : string) : string :=
  match s with
  | EmptyString => EmptyString
  | String c r => if is_space c then trimStart r else s
  end.

Fixpoint trimEnd (s : string) : string :=
  match s with
  | EmptyString => EmptyString
  | String c r =>
      match trimEnd r with
      | EmptyString => if is_space c then EmptyString else String c EmptyString
      | r' => String c r'
      end
  end.

Definition trim (s : string) : string := trimEnd (trimStart s).

(* ------------------------------------------------------------------ *)
(** ** Browser objects *)

Inductive track_kind := Video | Audio.

Record track := { kind : track_kind; label : string }.

(** A [MediaStream] is its track set. *)
Definition MediaStream := list track.

Definition is_video (t : track) : bool :=
  match kind t with Video => true | Audio => false end.

Definition getVideoTracks (st : MediaStream) : list track :=
  List.filter is_video st.
Definition getAudioTracks (st : MediaStream) : list track :=
  List.filter (fun t => negb (is_video t)) st.
Definition getTracks (st : MediaStream) : list track := st.

Inductive sdp_type := Offer | Answer.

(** [RTCSessionDescriptionInit]. *)
Record description := { role : sdp_type; sdp : string }.

(** [RTCIceCandidate]; [new RTCIceCandidate(c)] copies [c]. *)
Record ice_candidate := { candidate : string; sdpMid : string }.

(** Exceptions, by what [error.toString()] prints. *)
Inductive js_error :=
| TypeError (message : string)
| DOMException (name message : string).

Definition toString (e : js_error) : string :=
  match e with
  | TypeError m => "TypeError: " ++ m
  | DOMException n m => n ++ ": " ++ m
  end.

(** The value of a variable that is to hold a peer connection:
    [let x;] leaves it [undefined], [hangupAction] stores [null]. *)
Inductive reference := Undefined | Null | Ref (addr : nat).

#[global] Instance reference_eq_dec : EqDecision reference.
Proof. solve_decision. Defined.

(** Calling a method on [undefined] or [null]. *)
Definition reference_name (v : reference) : string :=
  match v with Null => "null" | _ => "undefined" end.

Definition no_such_member (v : reference) (member : string) : js_error :=
  TypeError ("Cannot read properties of " ++ reference_name v ++
             " (reading '" ++ member ++ "')").

(** One [RTCPeerConnection] object. *)
Record peer := {
  localDescription : option description;
  remoteDescription : option description;
  senders : list track;
  remoteCandidates : list ice_candidate;
  iceConnectionState : string;
  closed : bool
}.

(** [new RTCPeerConnection(null)]. *)
Definition new_peer : peer :=
  {| localDescription := None; remoteDescription := None; senders := [];
     remoteCandidates := []; iceConnectionState := "new"; closed := false |}.

(** What a fulfilled [setLocalDescription(d)] has done to the object. *)
Definition did_setLocalDescription (d : description) (p : peer) : peer :=
  {| localDescription := Some d; remoteDescription := remoteDescription p;
     senders := senders p; remoteCandidates := remoteCandidates p;
     iceConnectionState := iceConnectionState p; closed := closed p |}.

(** What a fulfilled [setRemoteDescription(d)] has done to the object. *)
Definition did_setRemoteDescription (d : description) (p : peer) : peer :=
  {| localDescription := localDescription p; remoteDescription := Some d;
     senders := senders p; remoteCandidates := remoteCandidates p;
     iceConnectionState := iceConnectionState p; closed := closed p |}.

(** What a fulfilled [addIceCandidate(c)] has done to the object. *)
Definition did_addIceCandidate (c : ice_candidate) (p : peer) : peer :=
  {| localDescription := localDescription p;
     remoteDescription := remoteDescription p;
     senders := senders p; remoteCandidates := remoteCandidates p ++ [c];
     iceConnectionState := iceConnectionState p; closed := closed p |}.

(** [addTrack(t, stream)] on a connection that does not send [t] yet. *)
Definition did_addTrack (t : track) (p : peer) : peer :=
  {| localDescription := localDescription p;
     remoteDescription := remoteDescription p;
     senders := senders p ++ [t]; remoteCandidates := remoteCandidates p;
     iceConnectionState := iceConnectionState p; closed := closed p |}.

(** [close()]. *)
Definition did_close (p : peer) : peer :=
  {| localDescription := localDescription p;
     remoteDescription := remoteDescription p;
     senders := senders p; remoteCandidates := remoteCandidates p;
     iceConnectionState := "closed"; closed := true |}.

(** The transport moved the connection to ICE state [st]. *)
Definition did_iceState (st : string) (p : peer) : peer :=
  {| localDescription := localDescription p;
     remoteDescription := remoteDescription p;
     senders := senders p; remoteCandidates := remoteCandidates p;
     iceConnectionState := st; closed := closed p |}.

(* ------------------------------------------------------------------ *)
(** ** Promises in flight *)

(** An [await] at which an [async] function of the script is suspended,
    with the object whose method was called and the local variables the
    rest of the function still reads. *)
Inductive pending_op :=
| GetUserMedia                                      (* startAction, line 205 *)
| CreateOffer (pc : nat)                            (* callAction, line 255 *)
| OfferSetLocal (pc : nat) (d : description)        (* createdOffer, line 144 *)
| OfferSetRemote (pc : nat) (d : description)       (* createdOffer, line 152 *)
| CreateAnswer (pc : nat)                           (* createdOffer, line 160 *)
| AnswerSetLocal (pc : nat) (d : description)       (* createdAnswer, line 173 *)
| AnswerSetRemote (pc : nat) (d : description)      (* createdAnswer, line 181 *)
| AddIceCandidate (pc : nat) (source : nat) (c : ice_candidate).
                                                    (* handleConnection, line 82 *)

Inductive value :=
| VUndefined
| VStream (st : MediaStream)
| VDescription (d : description).

Inductive settlement :=
| Fulfilled (v : value)
| Rejected (e : js_error).

#[global] Instance track_kind_eq_dec : EqDecision track_kind.
Proof. solve_decision. Defined.
#[global] Instance track_eq_dec : EqDecision track.
Proof. solve_decision. Defined.
#[global] Instance sdp_type_eq_dec : EqDecision sdp_type.
Proof. solve_decision. Defined.
#[global] Instance description_eq_dec : EqDecision description.
Proof. solve_decision. Defined.
#[global] Instance ice_candidate_eq_dec : EqDecision ice_candidate.
Proof. solve_decision. Defined.
#[global] Instance pending_op_eq_dec : EqDecision pending_op.
Proof. solve_decision. Defined.

(** What [console.log] received. *)
Inductive log_entry :=
| Traced (text : string)          (* trace: console.log(now, text) *)
| IceStateChangeEvent (target : nat).
                                  (* console.log('ICE state change event: ', event) *)

(* ------------------------------------------------------------------ *)
(** ** The module-level variables *)

Record state := {
  localStream : option MediaStream;
  localVideo_srcObject : option MediaStream;
  localPeerConnection : reference;
  remotePeerConnection : reference;
  startButton_disabled : bool;
  callButton_disabled : bool;
  hangupButton_disabled : bool;
  startTime : option Z;
  heap : list peer;
  pending : list pending_op;
  console : list log_entry
}.

(** Assignment to one variable; the others keep their value. *)
Definition set_localStream (v : option MediaStream) (s : state) : state :=
  {| localStream := v; localVideo_srcObject := localVideo_srcObject s;
     localPeerConnection := localPeerConnection s; remotePeerConnection := remotePeerConnection s;
     startButton_disabled := startButton_disabled s; callButton_disabled := callButton_disabled s;
     hangupButton_disabled := hangupButton_disabled s; startTime := startTime s;
     heap := heap s; pending := pending s;
     console := console s |}.

Definition set_localVideo_srcObject (v : option MediaStream) (s : state) : state :=
  {| localStream := localStream s; localVideo_srcObject := v;
     localPeerConnection := localPeerConnection s; remotePeerConnection := remotePeerConnection s;
     startButton_disabled := startButton_disabled s; callButton_disabled := callButton_disabled s;
     hangupButton_disabled := hangupButton_disabled s; startTime := startTime s;
     heap := heap s; pending := pending s;
     console := console s |}.

Definition set_localPeerConnection (v : reference) (s : state) : state :=
  {| localStream := localStream s; localVideo_srcObject := localVideo_srcObject s;
     localPeerConnection := v; remotePeerConnection := remotePeerConnection s;
     startButton_disabled := startButton_disabled s; callButton_disabled := callButton_disabled s;
     hangupButton_disabled := hangupButton_disabled s; startTime := startTime s;
     heap := heap s; pending := pending s;
     console := console s |}.

Definition set_remotePeerConnection (v : reference) (s : state) : state :=
  {| localStream := localStream s; localVideo_srcObject := localVideo_srcObject s;
     localPeerConnection := localPeerConnection s; remotePeerConnection := v;
     startButton_disabled := startButton_disabled s; callButton_disabled := callButton_disabled s;
     hangupButton_disabled := hangupButton_disabled s; startTime := startTime s;
     heap := heap s; pending := pending s;
     console := console s |}.

Definition set_startButton_disabled (v : bool) (s : state) : state :=
  {| localStream := localStream s; localVideo_srcObject := localVideo_srcObject s;
     localPeerConnection := localPeerConnection s; remotePeerConnection := remotePeerConnection s;
     startButton_disabled := v; callButton_disabled := callButton_disabled s;
     hangupButton_disabled := hangupButton_disabled s; startTime := startTime s;
     heap := heap s; pending := pending s;
     console := console s |}.

Definition set_callButton_disabled (v : bool) (s : state) : state :=
  {| localStream := localStream s; localVideo_srcObject := localVideo_srcObject s;
     localPeerConnection := localPeerConnection s; remotePeerConnection := remotePeerConnection s;
     startButton_disabled := startButton_disabled s; callButton_disabled := v;
     hangupButton_disabled := hangupButton_disabled s; startTime := startTime s;
     heap := heap s; pending := pending s;
     console := console s |}.

Definition set_hangupButton_disabled (v : bool) (s : state) : state :=
  {| localStream := localStream s; localVideo_srcObject := localVideo_srcObject s;
     localPeerConnection := localPeerConnection s; remotePeerConnection := remotePeerConnection s;
     startButton_disabled := startButton_disabled s; callButton_disabled := callButton_disabled s;
     hangupButton_disabled := v; startTime := startTime s;
     heap := heap s; pending := pending s;
     console := console s |}.

Definition set_startTime (v : option Z) (s : state) : state :=
  {| localStream := localStream s; localVideo_srcObject := localVideo_srcObject s;
     localPeerConnection := localPeerConnection s; remotePeerConnection := remotePeerConnection s;
     startButton_disabled := startButton_disabled s; callButton_disabled := callButton_disabled s;
     hangupButton_disabled := hangupButton_disabled s; startTime := v;
     heap := heap s; pending := pending s;
     console := console s |}.

Definition set_heap (v : list peer) (s : state) : state :=
  {| localStream := localStream s; localVideo_srcObject := localVideo_srcObject s;
     localPeerConnection := localPeerConnection s; remotePeerConnection := remotePeerConnection s;
     startButton_disabled := startButton_disabled s; callButton_disabled := callButton_disabled s;
     hangupButton_disabled := hangupButton_disabled s; startTime := startTime s;
     heap := v; pending := pending s;
     console := console s |}.

Definition set_pending (v : list pending_op) (s : state) : state :=
  {| localStream := localStream s; localVideo_srcObject := localVideo_srcObject s;
     localPeerConnection := localPeerConnection s; remotePeerConnection := remotePeerConnection s;
     startButton_disabled := startButton_disabled s; callButton_disabled := callButton_disabled s;
     hangupButton_disabled := hangupButton_disabled s; startTime := startTime s;
     heap := heap s; pending := v;
     console := console s |}.

Definition set_console (v : list log_entry) (s : state) : state :=
  {| localStream := localStream s; localVideo_srcObject := localVideo_srcObject s;
     localPeerConnection := localPeerConnection s; remotePeerConnection := remotePeerConnection s;
     startButton_disabled := startButton_disabled s; callButton_disabled := callButton_disabled s;
     hangupButton_disabled := hangupButton_disabled s; startTime := startTime s;
     heap := heap s; pending := pending s;
     console := v |}.

(** Mutation of the object a reference designates. *)
Definition update_peer (a : nat) (f : peer -> peer) (s : state) : state :=
  set_heap (alter f a (heap s)) s.

(** [new RTCPeerConnection(servers)]: a fresh object at the end of the heap. *)
Definition allocate (s : state) : nat * state :=
  (length (heap s), set_heap (heap s ++ [new_peer]) s).

(** An [await] on a promise of the browser: the function is suspended. *)
Definition suspend (p : pending_op) (s : state) : state :=
  set_pending (pending s ++ [p]) s.

(* ------------------------------------------------------------------ *)
(** ** Helper functions of the script (lines 278-296) *)

(** [trace(text)]: the trimmed text goes to the console.  The first
    column that [console.log] prints, the clock reading formatted by
    [toFixed(3)], is left out. *)
Definition trace (text : string) (s : state) : state :=
  set_console (console s ++ [Traced (trim text)]) s.

Definition getOtherPeer (peerConnection : reference) (s : state) : reference :=
  if decide (peerConnection = localPeerConnection s)
  then remotePeerConnection s else localPeerConnection s.

Definition getPeerName (peerConnection : reference) (s : state) : string :=
  if decide (peerConnection = localPeerConnection s)
  then "localPeerConnection" else "remotePeerConnection".

(* ------------------------------------------------------------------ *)
(** ** Media (lines 25-36) *)

Definition gotLocalMediaStream (mediaStream : MediaStream) (s : state) : state :=
  let s := set_localVideo_srcObject (Some mediaStream) s in
  let s := set_localStream (Some mediaStream) s in
  let s := trace "Received local stream" s in
  set_callButton_disabled false s.

Definition handleLocalMediaStreamError (error : js_error) (s : state) : state :=
  trace ("navigator.getUserMedia error: " ++ toString error ++ ".") s.

(* ------------------------------------------------------------------ *)
(** ** Peer connection behaviour (lines 70-128) *)

Definition handleConnectionSuccess (peerConnection : reference) (s : state)
  : state :=
  trace (getPeerName peerConnection s ++ " addIceCandidate success.") s.

Definition handleConnectionFailure (peerConnection : reference)
    (error : js_error) (s : state) : state :=
  trace (getPeerName peerConnection s ++ " failed to add ICE Candidate:" ++ nl
         ++ toString error ++ ".") s.

(** Line 88, after the [try] of [handleConnection]. *)
Definition handleConnection_done (target : nat) (c : ice_candidate) (s : state)
  : state :=
  trace (getPeerName (Ref target) s ++ " ICE candidate:" ++ nl ++ candidate c) s.

(** [handleConnection(event)] up to its [await]; [target] is
    [event.target] and [iceCandidate] is [event.candidate], [null] in the
    event that ends the candidates. *)
Definition handleConnection (target : nat) (iceCandidate : option ice_candidate)
    (s : state) : state :=
  match iceCandidate with
  | Some c =>
      let newIceCandidate := c in
      match getOtherPeer (Ref target) s with
      | Ref other => suspend (AddIceCandidate other target newIceCandidate) s
      | v => handleConnection_done target c
               (handleConnectionFailure (Ref target)
                  (no_such_member v "addIceCandidate") s)
      end
  | None => s
  end.

(** [handleConnection] after its [await]. *)
Definition handleConnection_settled (other target : nat) (c : ice_candidate)
    (r : option js_error) (s : state) : state :=
  match r with
  | None =>
      let s := update_peer other (did_addIceCandidate c) s in
      handleConnection_done target c (handleConnectionSuccess (Ref target) s)
  | Some error =>
      handleConnection_done target c
        (handleConnectionFailure (Ref target) error s)
  end.

(** [handleConnectionChange(event)]; the transport has already moved
    [event.target] to the state it reports. *)
Definition handleConnectionChange (target : nat) (s : state) : state :=
  let s := set_console (console s ++ [IceStateChangeEvent target]) s in
  let st := match heap s !! target with
            | Some p => iceConnectionState p
            | None => "undefined"
            end in
  trace (getPeerName (Ref target) s ++ " ICE state: " ++ st ++ ".") s.

Definition setSessionDescriptionError (error : js_error) (s : state) : state :=
  trace ("Failed to create session description: " ++ toString error ++ ".") s.

Definition setDescriptionSuccess (peerConnection : reference)
    (functionName : string) (s : state) : state :=
  let peerName := getPeerName peerConnection s in
  trace (peerName ++ " " ++ functionName ++ " complete.") s.

Definition setLocalDescriptionSuccess (peerConnection : reference) (s : state)
  : state :=
  setDescriptionSuccess peerConnection "setLocalDescription" s.

Definition setRemoteDescriptionSuccess (peerConnection : reference) (s : state)
  : state :=
  setDescriptionSuccess peerConnection "setRemoteDescription" s.

(* ------------------------------------------------------------------ *)
(** ** The handshake (lines 138-186)

    Each [try] block reads the module-level variable again.  A method
    call on [undefined] or [null] throws inside the [try], is caught and
    logged, and the function goes on to its next block; a method call on
    an object returns a promise, on which the function is suspended. *)

(** [createdAnswer], second [try] (lines 179-185). *)
Definition createdAnswer_remote (description : description) (s : state)
  : state :=
  let s := trace "localPeerConnection setRemoteDescription start." s in
  match localPeerConnection s with
  | Ref l => suspend (AnswerSetRemote l description) s
  | v => setSessionDescriptionError (no_such_member v "setRemoteDescription") s
  end.

(** [createdAnswer(description)] up to its first [await] (lines 168-177). *)
Definition createdAnswer (description : description) (s : state) : state :=
  let s := trace ("Answer from remotePeerConnection:" ++ nl ++ sdp description)
             s in
  let s := trace "remotePeerConnection setLocalDescription start." s in
  match remotePeerConnection s with
  | Ref r => suspend (AnswerSetLocal r description) s
  | v => createdAnswer_remote description
           (setSessionDescriptionError
              (no_such_member v "setLocalDescription") s)
  end.

(** [createdOffer], third [try] (lines 158-164). *)
Definition createdOffer_answer (s : state) : state :=
  let s := trace "remotePeerConnection createAnswer start." s in
  match remotePeerConnection s with
  | Ref r => suspend (CreateAnswer r) s
  | v => setSessionDescriptionError (no_such_member v "createAnswer") s
  end.

(** [createdOffer], second [try] (lines 150-156). *)
Definition createdOffer_remote (description : description) (s : state)
  : state :=
  let s := trace "remotePeerConnection setRemoteDescription start" s in
  match remotePeerConnection s with
  | Ref r => suspend (OfferSetRemote r description) s
  | v => createdOffer_answer
           (setSessionDescriptionError
              (no_such_member v "setRemoteDescription") s)
  end.

(** [createdOffer(description)] up to its first [await] (lines 139-148). *)
Definition createdOffer (description : description) (s : state) : state :=
  let s := trace ("Offer from localPeerConnection:" ++ nl ++ sdp description)
             s in
  let s := trace "localPeerConnection setLocalDescription start." s in
  match localPeerConnection s with
  | Ref l => suspend (OfferSetLocal l description) s
  | v => createdOffer_remote description
           (setSessionDescriptionError
              (no_such_member v "setLocalDescription") s)
  end.

(* ------------------------------------------------------------------ *)
(** ** Button actions (lines 188-271) *)

(** The script's top level: [callButton] and [hangupButton] start
    disabled (lines 196-197).  [start_disabled] is the [disabled]
    attribute the page gives [startButton]. *)
Definition initial (start_disabled : bool) : state :=
  {| localStream := None; localVideo_srcObject := None;
     localPeerConnection := Undefined; remotePeerConnection := Undefined;
     startButton_disabled := start_disabled;
     callButton_disabled := true; hangupButton_disabled := true;
     startTime := None; heap := []; pending := []; console := [] |}.

(** [startAction()] up to its [await]. *)
Definition startAction (s : state) : state :=
  let s := trace "Requesting local stream." s in
  let s := set_startButton_disabled true s in
  suspend GetUserMedia s.

(** [callAction()] up to its [await]; [now] is what
    [window.performance.now()] returns.  With [localStream] still
    [undefined], line 221 throws outside any [try]. *)
Definition callAction (now : Z) (s : state) : state * option js_error :=
  let s := set_callButton_disabled true s in
  let s := set_hangupButton_disabled false s in
  let s := trace "Starting call" s in
  let s := set_startTime (Some now) s in
  match localStream s with
  | None => (s, Some (no_such_member Undefined "getVideoTracks"))
  | Some stream =>
      let videoTracks := getVideoTracks stream in
      let audioTracks := getAudioTracks stream in
      let s := match videoTracks with
               | v :: _ => trace ("Using video device: " ++ label v ++ ".") s
               | [] => s
               end in
      let s := match audioTracks with
               | a :: _ => trace ("Using audio device: " ++ label a) s
               | [] => s
               end in
      let '(l, s) := allocate s in
      let s := set_localPeerConnection (Ref l) s in
      let s := trace "Created local peer connection object localPeerConnection."
                 s in
      let '(r, s) := allocate s in
      let s := set_remotePeerConnection (Ref r) s in
      let s := trace
                 "Created remote peer connection object remotePeerConnection."
                 s in
      let s := foldl (fun s t => update_peer l (did_addTrack t) s) s
                 (getTracks stream) in
      let s := trace "Added local stream to localPeerConnection." s in
      let s := trace "localPeerConnection createOffer start." s in
      (suspend (CreateOffer l) s, None)
  end.

(** [callAction] after its [await] (lines 256-258). *)
Definition callAction_settled (r : description + js_error) (s : state) : state :=
  match r with
  | inl localDescription => createdOffer localDescription s
  | inr error => setSessionDescriptionError error s
  end.

(** [hangupAction()]: no [try]; a method call on [undefined] or [null]
    leaves the function at that line. *)
Definition hangupAction (s : state) : state * option js_error :=
  match localPeerConnection s with
  | Ref l =>
      let s := update_peer l did_close s in
      match remotePeerConnection s with
      | Ref r =>
          let s := update_peer r did_close s in
          let s := set_localPeerConnection Null s in
          let s := set_remotePeerConnection Null s in
          let s := set_hangupButton_disabled true s in
          let s := set_callButton_disabled false s in
          (trace "Ending call." s, None)
      | v => (s, Some (no_such_member v "close"))
      end
  | v => (s, Some (no_such_member v "close"))
  end.

(* ------------------------------------------------------------------ *)
(** ** The functions after their [await]s *)

(** [startAction] after line 205. *)
Definition startAction_settled (r : MediaStream + js_error) (s : state)
  : state :=
  match r with
  | inl stream => gotLocalMediaStream stream s
  | inr error => handleLocalMediaStreamError error s
  end.

(** [createdOffer] after line 144; [pc] is the object whose
    [setLocalDescription] was called. *)
Definition createdOffer_local_settled (pc : nat) (d : description)
    (r : option js_error) (s : state) : state :=
  match r with
  | None =>
      let s := update_peer pc (did_setLocalDescription d) s in
      createdOffer_remote d
        (setLocalDescriptionSuccess (localPeerConnection s) s)
  | Some error => createdOffer_remote d (setSessionDescriptionError error s)
  end.

(** [createdOffer] after line 152. *)
Definition createdOffer_remote_settled (pc : nat) (d : description)
    (r : option js_error) (s : state) : state :=
  match r with
  | None =>
      let s := update_peer pc (did_setRemoteDescription d) s in
      createdOffer_answer
        (setRemoteDescriptionSuccess (remotePeerConnection s) s)
  | Some error => createdOffer_answer (setSessionDescriptionError error s)
  end.

(** [createdOffer] after line 160. *)
Definition createdOffer_answer_settled (r : description + js_error) (s : state)
  : state :=
  match r with
  | inl remoteDescription => createdAnswer remoteDescription s
  | inr error => setSessionDescriptionError error s
  end.

(** [createdAnswer] after line 173. *)
Definition createdAnswer_local_settled (pc : nat) (d : description)
    (r : option js_error) (s : state) : state :=
  match r with
  | None =>
      let s := update_peer pc (did_setLocalDescription d) s in
      createdAnswer_remote d
        (setLocalDescriptionSuccess (remotePeerConnection s) s)
  | Some error => createdAnswer_remote d (setSessionDescriptionError error s)
  end.

(** [createdAnswer] after line 181. *)
Definition createdAnswer_remote_settled (pc : nat) (d : description)
    (r : option js_error) (s : state) : state :=
  match r with
  | None =>
      let s := update_peer pc (did_setRemoteDescription d) s in
      setRemoteDescriptionSuccess (localPeerConnection s) s
  | Some error => setSessionDescriptionError error s
  end.

(** The suspended function [p] goes on with the outcome [o] of its
    promise.  [None]: the promise of [p] has no such outcome
    ([getUserMedia] yields a stream, [createOffer] and [createAnswer] a
    description, the other methods [undefined]). *)
Definition resume (p : pending_op) (o : settlement) (s : state)
  : option state :=
  match p, o with
  | GetUserMedia, Fulfilled (VStream st) => Some (startAction_settled (inl st) s)
  | GetUserMedia, Rejected e => Some (startAction_settled (inr e) s)
  | CreateOffer _, Fulfilled (VDescription d) =>
      Some (callAction_settled (inl d) s)
  | CreateOffer _, Rejected e => Some (callAction_settled (inr e) s)
  | OfferSetLocal pc d, Fulfilled VUndefined =>
      Some (createdOffer_local_settled pc d None s)
  | OfferSetLocal pc d, Rejected e =>
      Some (createdOffer_local_settled pc d (Some e) s)
  | OfferSetRemote pc d, Fulfilled VUndefined =>
      Some (createdOffer_remote_settled pc d None s)
  | OfferSetRemote pc d, Rejected e =>
      Some (createdOffer_remote_settled pc d (Some e) s)
  | CreateAnswer _, Fulfilled (VDescription d) =>
      Some (createdOffer_answer_settled (inl d) s)
  | CreateAnswer _, Rejected e => Some (createdOffer_answer_settled (inr e) s)
  | AnswerSetLocal pc d, Fulfilled VUndefined =>
      Some (createdAnswer_local_settled pc d None s)
  | AnswerSetLocal pc d, Rejected e =>
      Some (createdAnswer_local_settled pc d (Some e) s)
  | AnswerSetRemote pc d, Fulfilled VUndefined =>
      Some (createdAnswer_remote_settled pc d None s)
  | AnswerSetRemote pc d, Rejected e =>
      Some (createdAnswer_remote_settled pc d (Some e) s)
  | AddIceCandidate pc src c, Fulfilled VUndefined =>
      Some (handleConnection_settled pc src c None s)
  | AddIceCandidate pc src c, Rejected e =>
      Some (handleConnection_settled pc src c (Some e) s)
  | _, _ => None
  end.

(* ------------------------------------------------------------------ *)
(** ** The event loop *)

Inductive event :=
| ClickStart
| ClickCall (now : Z)
| ClickHangup
| IceCandidate (target : nat) (c : option ice_candidate)
| IceConnectionStateChange (target : nat) (st : string)
| Settle (p : pending_op) (o : settlement).

(** The promise of [p] is no longer in flight. *)
Fixpoint discharge (p : pending_op) (l : list pending_op) : list pending_op :=
  match l with
  | [] => []
  | q :: l => if decide (p = q) then l else q :: discharge p l
  end.

(** One turn of the event loop: the state after it and the exception
    that left the handler, if any.  A disabled button dispatches no
    click (lines 274-276 register the actions as click listeners); only
    an existing object reports events; only a promise in flight settles. *)
Definition step (s : state) (e : event) : state * option js_error :=
  match e with
  | ClickStart =>
      if startButton_disabled s then (s, None) else (startAction s, None)
  | ClickCall now =>
      if callButton_disabled s then (s, None) else callAction now s
  | ClickHangup =>
      if hangupButton_disabled s then (s, None) else hangupAction s
  | IceCandidate target c =>
      if decide (target < length (heap s))
      then (handleConnection target c s, None) else (s, None)
  | IceConnectionStateChange target st =>
      if decide (target < length (heap s))
      then (handleConnectionChange target
              (update_peer target (did_iceState st) s), None)
      else (s, None)
  | Settle p o =>
      if decide (p ∈ pending s)
      then match resume p o (set_pending (discharge p (pending s)) s) with
           | Some s' => (s', None)
           | None => (s, None)
           end
      else (s, None)
  end.

(** The state after a sequence of events. *)
Definition exec (s : state) (es : list event) : state :=
  foldl (fun s e => (step s e).1) s es.

(** The exceptions no handler caught during a sequence of events. *)
Fixpoint uncaught (s : state) (es : list event) : list js_error :=
  match es with
  | [] => []
  | e :: es =>
      match (step s e).2 with
      | Some err => err :: uncaught (step s e).1 es
      | None => uncaught (step s e).1 es
      end
  end.

(** The states the page can be in. *)
Definition reachable (s : state) : Prop :=
  exists (start_disabled : bool) (es : list event),
    s = exec (initial start_disabled) es.

(** The description an object holds. *)
Definition localDescription_of (a : nat) (s : state) : option description :=
  p ← heap s !! a; localDescription p.
Definition remoteDescription_of (a : nat) (s : state) : option description :=
  p ← heap s !! a; remoteDescription p.

(* ------------------------------------------------------------------ *)
(** ** The scenario of the specification *)

Definition O1 : description := {| role := Offer; sdp := "O1" |}.
Definition A1 : description := {| role := Answer; sdp := "A1" |}.
Definition camera : MediaStream := [ {| kind := Video; label := "cam" |} ].

Definition scenario : list event :=
  [ ClickStart; Settle GetUserMedia (Fulfilled (VStream camera));
    ClickCall 5;
    Settle (CreateOffer 0) (Fulfilled (VDescription O1));
    Settle (OfferSetLocal 0 O1) (Fulfilled VUndefined);
    Settle (OfferSetRemote 1 O1) (Fulfilled VUndefined);
    Settle (CreateAnswer 1) (Fulfilled (VDescription A1));
    Settle (AnswerSetLocal 1 A1) (Fulfilled VUndefined);
    Settle (AnswerSetRemote 0 A1) (Fulfilled VUndefined) ].

Example scenario_descriptions :
  let s := exec (initial false) scenario in
  remoteDescription_of 0 s = Some A1 /\ remoteDescription_of 1 s = Some O1 /\
  localDescription_of 0 s = Some O1 /\ localDescription_of 1 s = Some A1 /\
  pending s = [] /\ uncaught (initial false) scenario = [].
Proof. vm_compute. repeat split. Qed.

(* ------------------------------------------------------------------ *)
(** ** Invariants, phases and sample states *)

Local Open Scope list_scope.

(** The session variables: everything but the console, the promises in
    flight and the contents of the objects. *)
Record same_session (s s' : state) : Prop := {
  ss_stream : localStream s' = localStream s;
  ss_video : localVideo_srcObject s' = localVideo_srcObject s;
  ss_local : localPeerConnection s' = localPeerConnection s;
  ss_remote : remotePeerConnection s' = remotePeerConnection s;
  ss_start : startButton_disabled s' = startButton_disabled s;
  ss_call : callButton_disabled s' = callButton_disabled s;
  ss_hangup : hangupButton_disabled s' = hangupButton_disabled s;
  ss_time : startTime s' = startTime s;
  ss_heap : length (heap s') = length (heap s)
}.

(** The two variables are either both unset, or both cleared, or hold
    two different objects. *)
Definition paired (s : state) : Prop :=
  match localPeerConnection s, remotePeerConnection s with
  | Undefined, Undefined | Null, Null => True
  | Ref l, Ref r => l <> r /\ l < length (heap s) /\ r < length (heap s)
  | _, _ => False
  end.

Record consistent (s : state) : Prop := {
  c_paired : paired s;
  c_hangup : hangupButton_disabled s = false ->
             exists l, localPeerConnection s = Ref l;
  c_hangup_stream : hangupButton_disabled s = false -> is_Some (localStream s);
  c_call : callButton_disabled s = false -> is_Some (localStream s)
}.

(** The calls of the handshake, as opposed to those of the relay. *)
Definition handshake_op (p : pending_op) : bool :=
  match p with AddIceCandidate _ _ _ => false | _ => true end.

(** A relay call in flight goes to another object than its source. *)
Definition relay_op_ok (p : pending_op) : Prop :=
  match p with AddIceCandidate other source _ => other <> source | _ => True end.


(** The session has the two objects [l] and [r] as its endpoints. *)
Record live (l r : nat) (s : state) : Prop := {
  live_local : localPeerConnection s = Ref l;
  live_remote : remotePeerConnection s = Ref r;
  live_ne : l <> r;
  live_l : l < length (heap s);
  live_r : r < length (heap s)
}.



Definition calling : state :=
  exec (initial false)
    [ClickStart; Settle GetUserMedia (Fulfilled (VStream camera)); ClickCall 5].
Definition host : ice_candidate :=
  {| candidate := "candidate:1 1 udp 2122260223 192.0.2.1 54321 typ host";
     sdpMid := "0" |}.

(** The console line of [setSessionDescriptionError]. *)
Definition failure_line (e : js_error) : log_entry :=
  Traced (trim ("Failed to create session description: " +:+ toString e +:+ ".")).

(** The page waiting for the remote endpoint to take the offer. *)
Definition offered : state :=
  exec (initial false)
    [ClickStart; Settle GetUserMedia (Fulfilled (VStream camera)); ClickCall 5;
     IceCandidate 0 (Some host);
     Settle (CreateOffer 0) (Fulfilled (VDescription O1));
     Settle (OfferSetLocal 0 O1) (Fulfilled VUndefined)].

Definition refused : js_error :=
  DOMException "OperationError" "Failed to set remote offer sdp".

(** The events that hand the script a media stream. *)
Definition media_acquired (e : event) : bool :=
  match e with
  | Settle GetUserMedia (Fulfilled (VStream _)) => true
  | _ => false
  end.

(** The page as long as no stream has arrived. *)
Record idle (s : state) : Prop := {
  idle_call : callButton_disabled s = true;
  idle_hangup : hangupButton_disabled s = true;
  idle_stream : localStream s = None;
  idle_heap : heap s = [];
  idle_pending : Forall (fun p => p = GetUserMedia) (pending s)
}.

(** The page after a failed start: nothing is enabled, nothing is in
    flight, no object exists. *)
Record stuck (s : state) : Prop := {
  stuck_start : startButton_disabled s = true;
  stuck_call : callButton_disabled s = true;
  stuck_hangup : hangupButton_disabled s = true;
  stuck_heap : heap s = [];
  stuck_pending : pending s = []
}.

(** [getUserMedia] is in flight at most once, only after the start
    button was disabled, and only before any call. *)
Record media_once (s : state) : Prop := {
  m_enabled : startButton_disabled s = false -> GetUserMedia ∉ pending s;
  m_once : GetUserMedia ∉ discharge GetUserMedia (pending s);
  m_idle : GetUserMedia ∈ pending s \/ startButton_disabled s = false ->
           callButton_disabled s = true /\ hangupButton_disabled s = true /\
           localPeerConnection s = Undefined /\
           remotePeerConnection s = Undefined
}.

(** The page after a call was placed, a candidate was reported and the
    user hung up, with the offer and the relay call still in flight. *)
Definition ended : state :=
  exec (initial false)
    [ClickStart; Settle GetUserMedia (Fulfilled (VStream camera)); ClickCall 5;
     IceCandidate 0 (Some host); ClickHangup].

(** The tracks [callAction] hands to a connection, one [addTrack] each. *)
Definition did_addTracks (ts : list track) (p : peer) : peer :=
  foldl (fun p t => did_addTrack t p) p ts.

(** A mutation that neither opens nor closes an object and leaves its
    senders alone. *)
Definition benign (f : peer -> peer) : Prop :=
  forall p, closed (f p) = closed p /\ senders (f p) = senders p.

(** The buttons tell where the session is. *)
Record truthful (s : state) : Prop := {
  tr_hangup : hangupButton_disabled s = false <->
              exists l, localPeerConnection s = Ref l;
  tr_call : callButton_disabled s = false <->
            is_Some (localStream s) /\ hangupButton_disabled s = true;
  tr_stream : is_Some (localStream s) ->
              (GetUserMedia ∉ pending s) /\ startButton_disabled s = true
}.

(** The objects of the heap: the open ones are the two endpoints, the
    local one sends the tracks of the stream and the remote one none. *)
Record heap_tidy (s : state) : Prop := {
  t_open : forall a p, heap s !! a = Some p -> closed p = false ->
           localPeerConnection s = Ref a \/ remotePeerConnection s = Ref a;
  t_local : forall l p, localPeerConnection s = Ref l -> heap s !! l = Some p ->
            closed p = false /\
            forall st, localStream s = Some st -> senders p = getTracks st;
  t_remote : forall r p, remotePeerConnection s = Ref r ->
             heap s !! r = Some p -> closed p = false /\ senders p = []
}.

(** A console entry written by [trace] carries trimmed text. *)
Definition trimmed_entry (e : log_entry) : Prop :=
  match e with
  | Traced text => trim text = text
  | IceStateChangeEvent _ => True
  end.

(** The candidate events of one endpoint, and the relay calls they
    lead to on the other. *)
Definition candidate_events (target : nat) (cs : list (option ice_candidate))
  : list event :=
  map (IceCandidate target) cs.
Definition relay_calls (other target : nat) (cs : list (option ice_candidate))
  : list pending_op :=
  map (AddIceCandidate other target) (omap id cs).


(* ------------------------------------------------------------------ *)
(** * Properties *)

Arguments trim : simpl never.
Arguments toString : simpl never.
Arguments no_such_member : simpl never.

(** ** What a handler leaves alone *)

Lemma same_session_refl s : same_session s s.
Proof. by split. Qed.

Lemma same_session_trans s1 s2 s3 :
  same_session s1 s2 -> same_session s2 s3 -> same_session s1 s3.
Proof. intros [] []; split; congruence. Qed.

Ltac unfold_handlers :=
  unfold startAction_settled, callAction_settled,
    createdOffer_local_settled, createdOffer_remote_settled,
    createdOffer_answer_settled, createdAnswer_local_settled,
    createdAnswer_remote_settled, handleConnection_settled,
    handleConnection, handleConnection_done, handleConnectionChange,
    handleConnectionSuccess, handleConnectionFailure,
    createdOffer, createdOffer_remote, createdOffer_answer,
    createdAnswer, createdAnswer_remote,
    setLocalDescriptionSuccess, setRemoteDescriptionSuccess,
    setDescriptionSuccess, setSessionDescriptionError,
    gotLocalMediaStream, handleLocalMediaStreamError, startAction,
    trace, suspend, update_peer in *.

Ltac session_frame :=
  unfold_handlers; cbn;
  repeat (case_match; cbn);
  first [ split; cbn; rewrite ?length_alter; done | idtac ].

Lemma handleConnection_same_session target c s :
  same_session s (handleConnection target c s).
Proof. session_frame. Qed.

Lemma handleConnectionChange_same_session target st s :
  same_session s
    (handleConnectionChange target (update_peer target (did_iceState st) s)).
Proof. session_frame. Qed.

(** Every continuation but that of [startAction] leaves the session
    variables alone. *)
Lemma resume_same_session p o s s' :
  p <> GetUserMedia -> resume p o s = Some s' -> same_session s s'.
Proof.
  intros Hp Hr. destruct p, o as [[]|]; try done; simplify_eq/=;
    session_frame.
Qed.

(** ** The invariant of the page *)

Lemma consistent_same_session s s' :
  same_session s s' -> consistent s -> consistent s'.
Proof.
  intros [Hst _ Hl Hr _ Hc Hh _ Hn] []. split; unfold paired in *;
    rewrite ?Hst, ?Hl, ?Hr, ?Hc, ?Hh, ?Hn; auto.
Qed.

Lemma consistent_initial b : consistent (initial b).
Proof. split; cbn; done. Qed.

Lemma foldl_addTrack_same_session l ts s :
  same_session s (foldl (fun s t => update_peer l (did_addTrack t) s) s ts).
Proof.
  revert s. induction ts as [|t ts IH]; intros s; cbn.
  - apply same_session_refl.
  - eapply same_session_trans; [|apply IH]. session_frame.
Qed.

Lemma foldl_addTrack_pending l ts s :
  pending (foldl (fun s t => update_peer l (did_addTrack t) s) s ts)
  = pending s.
Proof. revert s. induction ts as [|t ts IH]; intros s; cbn; [done|]. by rewrite IH. Qed.

(** With a stream at hand [callAction] reaches its [await]. *)
Lemma callAction_with_stream now stream s :
  localStream s = Some stream ->
  exists s', callAction now s = (s', None) /\
    localPeerConnection s' = Ref (length (heap s)) /\
    remotePeerConnection s' = Ref (S (length (heap s))) /\
    length (heap s') = S (S (length (heap s))) /\
    localStream s' = Some stream /\
    startButton_disabled s' = startButton_disabled s /\
    callButton_disabled s' = true /\
    hangupButton_disabled s' = false /\
    pending s' = pending s ++ [CreateOffer (length (heap s))].
Proof.
  intros Hs. unfold callAction, allocate. cbn. rewrite Hs.
  eexists; split; [reflexivity|].
  destruct (getVideoTracks stream), (getAudioTracks stream); cbn;
    match goal with
    | |- context [foldl ?f ?a ?ts] =>
        assert (same_session a (foldl f a ts)) as [Hf1 _ Hf2 Hf3 Hf4 Hf5 Hf6 _ Hf7]
          by apply foldl_addTrack_same_session;
        assert (pending (foldl f a ts) = pending a) as Hp
          by apply foldl_addTrack_pending
    end;
    rewrite Hf1, Hf2, Hf3, Hf4, Hf5, Hf6, Hf7, Hp; cbn;
    rewrite !length_app; cbn; rewrite ?Nat.add_1_r;
    repeat split; try done; lia.
Qed.

(** With both variables holding objects [hangupAction] runs to its end. *)
Lemma hangupAction_live l r s :
  localPeerConnection s = Ref l -> remotePeerConnection s = Ref r ->
  exists s', hangupAction s = (s', None) /\
    localPeerConnection s' = Null /\ remotePeerConnection s' = Null /\
    hangupButton_disabled s' = true /\ callButton_disabled s' = false /\
    startButton_disabled s' = startButton_disabled s /\
    localStream s' = localStream s /\
    length (heap s') = length (heap s) /\
    pending s' = pending s /\
    console s' = console s ++ [Traced "Ending call."].
Proof.
  intros Hl Hr. unfold hangupAction. rewrite Hl. cbn. rewrite Hr.
  eexists; split; [reflexivity|]. cbn. rewrite !length_alter. done.
Qed.

Lemma consistent_paired_live s l :
  consistent s -> localPeerConnection s = Ref l ->
  exists r, remotePeerConnection s = Ref r /\ l <> r /\
            l < length (heap s) /\ r < length (heap s).
Proof.
  intros [Hp _ _ _] Hl. unfold paired in Hp. rewrite Hl in Hp.
  destruct (remotePeerConnection s); try done. eauto.
Qed.

(** Every turn of the event loop keeps the invariant. *)
Lemma step_consistent s e : consistent s -> consistent (step s e).1.
Proof.
  intros Hc. destruct e as [|now| |target c|target st|p o]; cbn.
  - destruct (startButton_disabled s); cbn; [done|].
    destruct Hc. by split.
  - destruct (callButton_disabled s) eqn:Hcall; cbn; [done|].
    destruct (c_call _ Hc Hcall) as [stream Hs].
    destruct (callAction_with_stream now stream s Hs)
      as (s' & -> & Hl & Hr & Hn & Hst & _ & Hcd & Hhd & _).
    cbn. split; unfold paired; rewrite ?Hl, ?Hr, ?Hn, ?Hst, ?Hcd, ?Hhd;
      try done; [lia | eauto].
  - destruct (hangupButton_disabled s) eqn:Hh; cbn; [done|].
    destruct (c_hangup _ Hc Hh) as [l Hl].
    destruct (consistent_paired_live _ _ Hc Hl) as (r & Hr & _).
    destruct (hangupAction_live l r s Hl Hr)
      as (s' & -> & Hl' & Hr' & Hhd & Hcd & _ & Hst & _).
    cbn. split; unfold paired; rewrite ?Hl', ?Hr', ?Hhd, ?Hcd, ?Hst;
      try done. intros _. by apply (c_hangup_stream _ Hc).
  - case_decide; cbn; [|done].
    eapply consistent_same_session; [apply handleConnection_same_session|done].
  - case_decide; cbn; [|done].
    eapply consistent_same_session;
      [apply handleConnectionChange_same_session|].
    eapply consistent_same_session; [|exact Hc]. session_frame.
  - case_decide; cbn; [|done].
    destruct (resume p o _) as [s'|] eqn:Hr; cbn; [|done].
    destruct (decide (p = GetUserMedia)) as [->|Hp].
    + destruct o as [[]|]; simplify_eq/=.
      * destruct Hc as [Hp ? ? ?]. split; cbn; eauto.
      * eapply consistent_same_session; [|exact Hc]. session_frame.
    + eapply consistent_same_session;
        [eapply resume_same_session; eassumption|].
      eapply consistent_same_session; [|exact Hc]. by split.
Qed.

Lemma exec_app s es1 es2 : exec s (es1 ++ es2) = exec (exec s es1) es2.
Proof. apply foldl_app. Qed.

Lemma exec_cons s e es : exec s (e :: es) = exec (step s e).1 es.
Proof. reflexivity. Qed.

Lemma exec_consistent s es : consistent s -> consistent (exec s es).
Proof.
  revert s. induction es as [|e es IH]; intros s Hc; [done|].
  rewrite exec_cons. by apply IH, step_consistent.
Qed.

Lemma reachable_consistent s : reachable s -> consistent s.
Proof. intros (b & es & ->). apply exec_consistent, consistent_initial. Qed.

Lemma reachable_step s e : reachable s -> reachable (step s e).1.
Proof.
  intros (b & es & ->). exists b, (es ++ [e]). by rewrite exec_app.
Qed.

Lemma reachable_exec s es : reachable s -> reachable (exec s es).
Proof.
  intros (b & es0 & ->). exists b, (es0 ++ es). by rewrite exec_app.
Qed.

(** No handler lets an exception escape in a state that keeps the
    invariant. *)
Lemma step_consistent_no_error s e : consistent s -> (step s e).2 = None.
Proof.
  intros Hc. destruct e as [|now| |target c|target st|p o]; cbn.
  - by destruct (startButton_disabled s).
  - destruct (callButton_disabled s) eqn:Hcall; cbn; [done|].
    destruct (c_call _ Hc Hcall) as [stream Hs].
    by destruct (callAction_with_stream now stream s Hs) as (s' & -> & _).
  - destruct (hangupButton_disabled s) eqn:Hh; cbn; [done|].
    destruct (c_hangup _ Hc Hh) as [l Hl].
    destruct (consistent_paired_live _ _ Hc Hl) as (r & Hr & _).
    by destruct (hangupAction_live l r s Hl Hr) as (s' & -> & _).
  - by case_decide.
  - by case_decide.
  - case_decide; [|done]. by destruct (resume p o _).
Qed.

Lemma uncaught_consistent s es : consistent s -> uncaught s es = [].
Proof.
  revert s. induction es as [|e es IH]; intros s Hc; [done|]. cbn.
  rewrite (step_consistent_no_error s e Hc).
  by apply IH, step_consistent.
Qed.

(** ** Promises in flight *)

Lemma elem_of_discharge p q l : q ∈ discharge p l -> q ∈ l.
Proof.
  induction l as [|x l IH]; cbn; [done|].
  case_decide.
  - intros Hq. apply elem_of_cons; by right.
  - intros [->|Hq]%elem_of_cons; apply elem_of_cons; auto.
Qed.


Lemma Forall_discharge (P : pending_op -> Prop) p l :
  Forall P l -> Forall P (discharge p l).
Proof.
  rewrite !Forall_forall. intros H x Hx. apply H.
  by apply (elem_of_discharge p).
Qed.

(** A continuation starts at most one further call, and never one of
    the relay nor [getUserMedia]. *)
Lemma resume_pending p o s s' :
  resume p o s = Some s' ->
  exists extra, pending s' = pending s ++ extra /\
    Forall (fun q => handshake_op q = true /\ q <> GetUserMedia) extra.
Proof.
  intros Hr. destruct p, o as [[]|]; try done; simplify_eq/=;
    unfold_handlers; cbn; repeat (case_match; cbn);
    first [ exists []; split; [by rewrite app_nil_r | constructor]
          | eexists [_]; split; [reflexivity | by repeat constructor] ].
Qed.

(** ** Descriptions under the browser's mutations *)



(** ** The relay *)

(** The object [getOtherPeer] returns is never the one it was asked
    about, as long as the two variables hold different objects. *)
Lemma getOtherPeer_other target other s :
  consistent s -> getOtherPeer (Ref target) s = Ref other -> other <> target.
Proof.
  intros Hc. unfold getOtherPeer. case_decide as Hl.
  - symmetry in Hl. destruct (consistent_paired_live _ _ Hc Hl)
      as (r & -> & Hne & _). congruence.
  - intros Ho. congruence.
Qed.

(** What [handleConnection] does with a candidate before its [await]:
    exactly one call, on the object [getOtherPeer] returns, or none when
    there is no such object. *)
Lemma handleConnection_candidate target c s :
  heap (handleConnection target (Some c) s) = heap s /\
  match getOtherPeer (Ref target) s with
  | Ref other =>
      pending (handleConnection target (Some c) s)
      = pending s ++ [AddIceCandidate other target c]
  | _ => pending (handleConnection target (Some c) s) = pending s
  end.
Proof. unfold handleConnection. by destruct (getOtherPeer _ _). Qed.

Lemma step_relay_ok s e :
  consistent s -> Forall relay_op_ok (pending s) ->
  Forall relay_op_ok (pending (step s e).1).
Proof.
  intros Hc Hok. destruct e as [|now| |target c|target st|p o]; cbn.
  - destruct (startButton_disabled s); cbn; [done|].
    apply Forall_app; split; [done|]. by repeat constructor.
  - destruct (callButton_disabled s) eqn:Hcall; cbn; [done|].
    destruct (c_call _ Hc Hcall) as [stream Hs].
    destruct (callAction_with_stream now stream s Hs)
      as (s' & -> & _ & _ & _ & _ & _ & _ & _ & Hp).
    cbn. rewrite Hp. apply Forall_app; split; [done|]. by repeat constructor.
  - destruct (hangupButton_disabled s) eqn:Hh; cbn; [done|].
    destruct (c_hangup _ Hc Hh) as [l Hl].
    destruct (consistent_paired_live _ _ Hc Hl) as (r & Hr & _).
    destruct (hangupAction_live l r s Hl Hr)
      as (s' & -> & _ & _ & _ & _ & _ & _ & _ & Hp & _).
    cbn. by rewrite Hp.
  - case_decide; cbn; [|done]. destruct c as [c|]; [|done].
    destruct (handleConnection_candidate target c s) as [_ Hp].
    destruct (getOtherPeer (Ref target) s) as [| |other] eqn:Ho;
      rewrite Hp; try done.
    apply Forall_app; split; [done|]. repeat constructor. cbn.
    by eapply getOtherPeer_other.
  - case_decide; cbn; done.
  - case_decide; cbn; [|done].
    destruct (resume p o _) as [s'|] eqn:Hr; cbn; [|done].
    destruct (resume_pending _ _ _ _ Hr) as (extra & -> & Hex). cbn.
    apply Forall_app; split; [by apply Forall_discharge|].
    eapply Forall_impl; [exact Hex|]. by intros [] [? _].
Qed.

Lemma reachable_relay_ok s : reachable s -> Forall relay_op_ok (pending s).
Proof.
  intros (b & es & ->).
  assert (forall s0, consistent s0 -> Forall relay_op_ok (pending s0) ->
            Forall relay_op_ok (pending (exec s0 es))) as H.
  { induction es as [|e es IH]; intros s0 Hc Hok; [done|].
    rewrite exec_cons. apply IH; [by apply step_consistent|].
    by apply step_relay_ok. }
  apply H; [apply consistent_initial|]. constructor.
Qed.

(** A completed relay call changes the object it was made on only. *)
Lemma handleConnection_settled_heap other target c r s a :
  a <> other ->
  heap (handleConnection_settled other target c r s) !! a = heap s !! a.
Proof.
  intros Hne. destruct r as [e|]; cbn; [done|].
  by rewrite list_lookup_alter_ne.
Qed.

(** ** The handshake in a live session *)
















(** ** Tags of console lines *)




(* ------------------------------------------------------------------ *)
(** * The claims *)

(** C8: a candidate event that carries no candidate (the end of the
    candidates) is not relayed: [handleConnection] calls
    [addIceCandidate] on no object and changes nothing at all, console
    included. *)
Theorem end_of_candidates_not_relayed (s : state) (target : nat) :
  handleConnection target None s = s /\
  step s (IceCandidate target None) = (s, None).
Proof. split; [done|]. cbn. by case_decide. Qed.

(** C2: in every state of the page, a candidate reported by endpoint
    [target] is passed to [addIceCandidate] of one object at most, the
    one [getOtherPeer] returns, which is never [target]: it is the remote
    endpoint when [target] is the local one and the local endpoint when
    [target] is the remote one.  No relay call in flight is on its own
    source, and a call that completes changes no other object than the
    one it was made on. *)
Theorem relay_never_targets_producer (s : state) (target : nat)
    (c : ice_candidate) :
  reachable s ->
  let s' := handleConnection target (Some c) s in
  heap s' = heap s /\
  (pending s' = pending s \/
   exists other, other <> target /\
     pending s' = pending s ++ [AddIceCandidate other target c]) /\
  (localPeerConnection s = Ref target ->
   exists r, remotePeerConnection s = Ref r /\ r <> target /\
     pending s' = pending s ++ [AddIceCandidate r target c]) /\
  (remotePeerConnection s = Ref target ->
   exists l, localPeerConnection s = Ref l /\ l <> target /\
     pending s' = pending s ++ [AddIceCandidate l target c]) /\
  (forall other source c', AddIceCandidate other source c' ∈ pending s' ->
     other <> source /\
     forall o, heap (handleConnection_settled other source c' o s') !! source
               = heap s' !! source).
Proof.
  intros Hreach s'. pose proof (reachable_consistent s Hreach) as Hc.
  destruct (handleConnection_candidate target c s) as [Hh Hp].
  fold s' in Hh, Hp. split; [done|]. split; [|split; [|split]].
  - destruct (getOtherPeer (Ref target) s) as [| |other] eqn:Ho; auto.
    right. exists other. split; [by eapply getOtherPeer_other|done].
  - intros Hl. destruct (consistent_paired_live _ _ Hc Hl) as (r & Hr & Hne & _).
    exists r. split; [done|]. split; [done|].
    unfold getOtherPeer in Hp. by rewrite decide_True, Hr in Hp.
  - intros Hr. destruct Hc as [Hpair _ _ _]. unfold paired in Hpair.
    rewrite Hr in Hpair. destruct (localPeerConnection s) as [| |l] eqn:Hl;
      try done. destruct Hpair as (Hne & _).
    exists l. split; [done|]. split; [done|].
    unfold getOtherPeer in Hp. rewrite Hl in Hp.
    rewrite decide_False in Hp by congruence. done.
  - intros other source c' Hin.
    assert (other <> source) as Hne; [|split; [done|]].
    + pose proof (reachable_relay_ok s Hreach) as Hok.
      rewrite Forall_forall in Hok.
      destruct (getOtherPeer (Ref target) s) as [| |o] eqn:Ho;
        rewrite Hp in Hin; try by apply (Hok _ Hin).
      apply elem_of_app in Hin as [Hin|Hin]; [by apply (Hok _ Hin)|].
      apply list_elem_of_singleton in Hin. simplify_eq.
      by eapply getOtherPeer_other.
    + intros o. apply handleConnection_settled_heap. congruence.
Qed.

Lemma reachable_calling : reachable calling.
Proof.
  unfold calling.
  exists false,
    [ClickStart; Settle GetUserMedia (Fulfilled (VStream camera)); ClickCall 5].
  reflexivity.
Defined.

Lemma relay_never_targets_producer_witness :
  reachable calling /\
  heap (handleConnection 0 (Some host) calling) = heap calling.
Proof.
  split; [exact reachable_calling|].
  exact (proj1 (relay_never_targets_producer calling 0 host reachable_calling)).
Defined.



Ltac settle_step Hin Hl Hr :=
  cbn; rewrite (decide_True _ _ Hin); cbn;
  unfold_handlers; cbn; rewrite ?Hl, ?Hr; cbn; rewrite ?Hl, ?Hr; cbn;
  rewrite <- ?app_assoc; repeat split; reflexivity.

(** C6: in a session with endpoints [l] and [r], a rejected
    [setRemoteDescription] of the offer on the remote endpoint (stage 2)
    is caught and logged, and [createAnswer] is called all the same.
    Likewise a rejected [setLocalDescription] of the offer is followed by
    the [setRemoteDescription] of the offer, and a rejected
    [setLocalDescription] of the answer by the [setRemoteDescription] of
    the answer.  A rejected [createOffer] or [createAnswer] is logged and
    nothing follows it, the later steps needing the description. *)
Theorem failed_step_is_logged_and_next_attempted (s : state) (l r pc : nat)
    (d : description) (e : js_error) (p : pending_op) :
  localPeerConnection s = Ref l ->
  remotePeerConnection s = Ref r ->
  p ∈ pending s ->
  let after := step s (Settle p (Rejected e)) in
  let rest := discharge p (pending s) in
  (p = OfferSetRemote pc d ->
     after.2 = None /\ heap after.1 = heap s /\
     console after.1 = console s ++
       [failure_line e; Traced "remotePeerConnection createAnswer start."] /\
     pending after.1 = rest ++ [CreateAnswer r]) /\
  (p = OfferSetLocal pc d ->
     after.2 = None /\ heap after.1 = heap s /\
     console after.1 = console s ++
       [failure_line e;
        Traced "remotePeerConnection setRemoteDescription start"] /\
     pending after.1 = rest ++ [OfferSetRemote r d]) /\
  (p = AnswerSetLocal pc d ->
     after.2 = None /\ heap after.1 = heap s /\
     console after.1 = console s ++
       [failure_line e;
        Traced "localPeerConnection setRemoteDescription start."] /\
     pending after.1 = rest ++ [AnswerSetRemote l d]) /\
  (p = CreateOffer pc \/ p = CreateAnswer pc \/ p = AnswerSetRemote pc d ->
     after.2 = None /\ heap after.1 = heap s /\
     console after.1 = console s ++ [failure_line e] /\
     pending after.1 = rest).
Proof.
  intros Hl Hr Hin after rest. subst after rest. unfold failure_line.
  split; [|split; [|split]]; try (intros ->; settle_step Hin Hl Hr).
  intros [->|[->| ->]]; settle_step Hin Hl Hr.
Qed.

Lemma failed_step_is_logged_and_next_attempted_witness :
  localPeerConnection offered = Ref 0 /\
  remotePeerConnection offered = Ref 1 /\
  OfferSetRemote 1 O1 ∈ pending offered /\
  pending (step offered (Settle (OfferSetRemote 1 O1) (Rejected refused))).1
  = [AddIceCandidate 1 0 host; CreateAnswer 1].
Proof.
  assert (OfferSetRemote 1 O1 ∈ pending offered) as Hin.
  { vm_compute. apply list_elem_of_further, list_elem_of_here. }
  split; [reflexivity|]. split; [reflexivity|]. split; [exact Hin|].
  exact (proj2 (proj2 (proj2 (proj1
    (failed_step_is_logged_and_next_attempted offered 0 1 1 O1 refused
       (OfferSetRemote 1 O1) eq_refl eq_refl Hin) eq_refl)))).
Defined.



(** ** Before the camera is acquired *)

Lemma idle_initial b : idle (initial b).
Proof. by split. Qed.

Lemma step_idle s e :
  media_acquired e = false -> idle s ->
  idle (step s e).1 /\ (step s e).2 = None.
Proof.
  intros He Hi. pose proof Hi as [Hc Hh Hs Hn Hp].
  destruct e as [|now| |target c|target st|p o]; cbn.
  - destruct (startButton_disabled s); cbn; [by split|].
    split; [|done]. split; cbn; try done.
    apply Forall_app; split; [done|]. by repeat constructor.
  - rewrite Hc. by split.
  - rewrite Hh. by split.
  - rewrite Hn. cbn. rewrite decide_False by lia. by split.
  - rewrite Hn. cbn. rewrite decide_False by lia. by split.
  - case_decide as Hin; cbn; [|by split].
    assert (p = GetUserMedia) as ->
      by (rewrite Forall_forall in Hp; by apply Hp).
    destruct o as [[]|e]; cbn in *; try done.
    split; [|done]. split; cbn; try done.
    by apply Forall_discharge.
Qed.

Lemma exec_idle s es :
  Forall (fun e => media_acquired e = false) es -> idle s -> idle (exec s es).
Proof.
  intros Hes. revert s. induction Hes as [|e es He _ IH]; intros s Hi; [done|].
  rewrite exec_cons. by apply IH, step_idle.
Qed.

Lemma step_stuck s e : stuck s -> step s e = (s, None).
Proof.
  intros [Hs Hc Hh Hn Hp]. destruct e as [|now| |target c|target st|p o]; cbn;
    rewrite ?Hs, ?Hc, ?Hh, ?Hn, ?Hp; cbn; try done.
  all: rewrite decide_False; [done|]; first [lia | by intros ?%elem_of_nil].
Qed.

Lemma exec_stuck s es : stuck s -> exec s es = s.
Proof.
  intros Hs. induction es as [|e es IH]; [done|].
  by rewrite exec_cons, (step_stuck s e Hs).
Qed.

(** C9: [startAction] disables the start button before it asks for the
    camera, and when the camera is refused the continuation only logs:
    the start button stays disabled and the call button is as it was.
    On the page, after a start that failed, both buttons are disabled and
    stay so whatever happens next; a click on either does nothing. *)
Theorem failed_start_leaves_triggers_disabled (s : state) (b : bool)
    (e : js_error) (es : list event) (now : Z) :
  startButton_disabled (startAction s) = true /\
  callButton_disabled (startAction s) = callButton_disabled s /\
  startButton_disabled (startAction_settled (inr e) (startAction s)) = true /\
  callButton_disabled (startAction_settled (inr e) (startAction s))
  = callButton_disabled s /\
  let s' := exec (initial b)
              (ClickStart :: Settle GetUserMedia (Rejected e) :: es) in
  startButton_disabled s' = true /\ callButton_disabled s' = true /\
  step s' ClickStart = (s', None) /\ step s' (ClickCall now) = (s', None).
Proof.
  do 4 (split; [done|]). intros s'.
  assert (stuck (exec (initial b)
                   [ClickStart; Settle GetUserMedia (Rejected e)])) as Hst.
  { destruct b; cbn.
    - rewrite decide_False by (by intros ?%elem_of_nil). by split.
    - rewrite decide_True by apply list_elem_of_here. cbn.
      rewrite decide_True by done. by split. }
  assert (s' = exec (initial b)
                 [ClickStart; Settle GetUserMedia (Rejected e)]) as ->.
  { subst s'.
    change (ClickStart :: Settle GetUserMedia (Rejected e) :: es)
      with ([ClickStart; Settle GetUserMedia (Rejected e)] ++ es).
    rewrite exec_app. by apply exec_stuck. }
  split; [apply Hst|]. split; [apply Hst|].
  split; by apply step_stuck.
Qed.

(** C4 as the code has it: from the load of the page until a media
    stream arrives, the call button is disabled and [localStream] is
    unset; a click on the button then dispatches nothing, raises nothing
    and leaves every variable as it is. *)
Theorem call_before_start_is_not_dispatched (b : bool) (es : list event)
    (now : Z) :
  Forall (fun e => media_acquired e = false) es ->
  let s := exec (initial b) es in
  callButton_disabled s = true /\ localStream s = None /\
  step s (ClickCall now) = (s, None).
Proof.
  intros Hes s.
  destruct (exec_idle (initial b) es Hes (idle_initial b)) as [Hc _ Hs _ _].
  fold s in Hc, Hs. split; [done|]. split; [done|]. cbn. by rewrite Hc.
Qed.

Lemma call_before_start_is_not_dispatched_witness :
  Forall (fun e => media_acquired e = false)
    [ClickStart; ClickCall 3;
     Settle GetUserMedia (Rejected (DOMException "NotAllowedError" "denied"))] /\
  callButton_disabled
    (exec (initial false)
       [ClickStart; ClickCall 3;
        Settle GetUserMedia
          (Rejected (DOMException "NotAllowedError" "denied"))]) = true.
Proof.
  assert (Forall (fun e => media_acquired e = false)
            [ClickStart; ClickCall 3;
             Settle GetUserMedia
               (Rejected (DOMException "NotAllowedError" "denied"))]) as H.
  { repeat constructor. }
  split; [exact H|].
  exact (proj1 (call_before_start_is_not_dispatched false _ 0 H)).
Defined.

(** C4 as stated fails: [callAction] run on the freshly loaded page
    enables the hangup button, logs, sets [startTime], and then throws a
    [TypeError] at [localStream.getVideoTracks()]; the state is not the
    one it started from.  A click on the call button raises nothing at
    all. *)
Lemma callAction_before_start_throws_after_mutation :
  step (initial false) (ClickCall 7) = (initial false, None) /\
  (callAction 7 (initial false)).2
  = Some (TypeError
            "Cannot read properties of undefined (reading 'getVideoTracks')") /\
  hangupButton_disabled (initial false) = true /\
  hangupButton_disabled (callAction 7 (initial false)).1 = false /\
  startTime (callAction 7 (initial false)).1 = Some 7%Z /\
  console (callAction 7 (initial false)).1 = [Traced "Starting call"] /\
  (callAction 7 (initial false)).1 <> initial false.
Proof. repeat split; try reflexivity. intros H. discriminate H. Qed.

(** ** Hanging up *)

Lemma foldl_addTrack_senders l ts s p :
  heap s !! l = Some p ->
  exists p',
    heap (foldl (fun s t => update_peer l (did_addTrack t) s) s ts) !! l
    = Some p' /\ senders p' = senders p ++ ts.
Proof.
  revert s p. induction ts as [|t ts IH]; intros s p Hp; cbn.
  - exists p. by rewrite app_nil_r.
  - destruct (IH (update_peer l (did_addTrack t) s) (did_addTrack t p))
      as (p' & Hp' & Hs).
    + unfold update_peer. cbn. by rewrite list_lookup_alter_eq, Hp.
    + exists p'. split; [done|]. rewrite Hs. cbn. by rewrite <- app_assoc.
Qed.

(** The local endpoint of a new call sends the tracks of the stream. *)
Lemma callAction_senders now stream s :
  localStream s = Some stream ->
  senders <$> heap (callAction now s).1 !! length (heap s) = Some stream.
Proof.
  intros Hs. unfold callAction, allocate. cbn. rewrite Hs.
  destruct (getVideoTracks stream), (getAudioTracks stream); cbn;
    match goal with
    | |- context [foldl ?f ?a ?ts] =>
        destruct (foldl_addTrack_senders (length (heap s)) ts a new_peer)
          as (p' & Hp' & Hsend)
    end;
    try (cbn; rewrite lookup_app_l by (rewrite length_app; cbn; lia);
         by rewrite list_lookup_middle);
    cbn in Hp'; rewrite Hp'; cbn; by rewrite Hsend.
Qed.

(** C3 as the code has it: a click on the hangup button raises nothing;
    when the button was enabled it ends the call, clears both variables
    and disables the button, so that a second click dispatches nothing:
    two clicks in a row leave the page where one click leaves it, and
    neither raises an exception. *)
Theorem hangup_click_is_idempotent (s : state) :
  reachable s ->
  let once := step s ClickHangup in
  once.2 = None /\
  step once.1 ClickHangup = (once.1, None) /\
  exec s [ClickHangup; ClickHangup] = exec s [ClickHangup] /\
  uncaught s [ClickHangup; ClickHangup] = [] /\
  hangupButton_disabled once.1 = true /\
  (hangupButton_disabled s = false ->
   localPeerConnection once.1 = Null /\ remotePeerConnection once.1 = Null).
Proof.
  intros Hreach once. pose proof (reachable_consistent s Hreach) as Hc.
  assert (once.2 = None) as Herr by apply (step_consistent_no_error s _ Hc).
  assert (hangupButton_disabled once.1 = true /\
          (hangupButton_disabled s = false ->
           localPeerConnection once.1 = Null /\
           remotePeerConnection once.1 = Null)) as [Hdis Hnull].
  { subst once. cbn. destruct (hangupButton_disabled s) eqn:Hh; cbn; [done|].
    destruct (c_hangup _ Hc Hh) as [l Hl].
    destruct (consistent_paired_live _ _ Hc Hl) as (r & Hr & _).
    destruct (hangupAction_live l r s Hl Hr)
      as (s' & -> & Hl' & Hr' & Hhd & _). done. }
  assert (step once.1 ClickHangup = (once.1, None)) as Hsecond.
  { change (step once.1 ClickHangup)
      with (if hangupButton_disabled once.1
            then (once.1, None) else hangupAction once.1).
    by rewrite Hdis. }
  split; [done|]. split; [done|]. split; [|split; [|done]].
  - cbn [exec foldl]. fold once. by rewrite Hsecond.
  - cbn [uncaught]. fold once. by rewrite Herr, Hsecond.
Qed.

Lemma hangup_click_is_idempotent_witness :
  reachable calling /\
  exec calling [ClickHangup; ClickHangup] = exec calling [ClickHangup].
Proof.
  split; [exact reachable_calling|].
  exact (proj1 (proj2 (proj2
    (hangup_click_is_idempotent calling reachable_calling)))).
Defined.

(** C3 as stated fails: [hangupAction] run a second time finds [null]
    in [localPeerConnection] and throws a [TypeError] at its first
    line. *)
Lemma hangupAction_twice_throws :
  (hangupAction calling).2 = None /\
  localPeerConnection (hangupAction calling).1 = Null /\
  (hangupAction (hangupAction calling).1).2
  = Some (TypeError "Cannot read properties of null (reading 'close')").
Proof. repeat split; reflexivity. Qed.

(** C10: a click on the enabled hangup button runs [hangupAction] to its
    end: both variables hold [null], the hangup button is disabled, the
    call button is enabled, and [localStream] still holds the stream
    acquired before.  A click on the call button then places a new call
    on two fresh objects with the tracks of that stream, and asks for an
    offer; [getUserMedia] is not called again. *)
Theorem hangup_resets_for_next_call (s : state) (now : Z) :
  reachable s ->
  hangupButton_disabled s = false ->
  exists s1 stream,
    step s ClickHangup = (s1, None) /\ hangupAction s = (s1, None) /\
    localPeerConnection s1 = Null /\ remotePeerConnection s1 = Null /\
    hangupButton_disabled s1 = true /\ callButton_disabled s1 = false /\
    localStream s = Some stream /\ localStream s1 = Some stream /\
    exists s2,
      step s1 (ClickCall now) = (s2, None) /\
      localPeerConnection s2 = Ref (length (heap s1)) /\
      remotePeerConnection s2 = Ref (S (length (heap s1))) /\
      senders <$> heap s2 !! length (heap s1) = Some stream /\
      localStream s2 = Some stream /\
      pending s2 = pending s1 ++ [CreateOffer (length (heap s1))] /\
      callButton_disabled s2 = true /\ hangupButton_disabled s2 = false.
Proof.
  intros Hreach Hh. pose proof (reachable_consistent s Hreach) as Hc.
  destruct (c_hangup _ Hc Hh) as [l Hl].
  destruct (consistent_paired_live _ _ Hc Hl) as (r & Hr & _).
  destruct (c_hangup_stream _ Hc Hh) as [stream Hs].
  destruct (hangupAction_live l r s Hl Hr)
    as (s1 & Hact & Hl1 & Hr1 & Hhd & Hcd & _ & Hs1 & _).
  exists s1, stream. cbn. rewrite Hh, Hact.
  do 6 (split; [done|]). split; [done|]. split; [congruence|].
  rewrite Hcd.
  assert (localStream s1 = Some stream) as Hs1' by congruence.
  pose proof (callAction_senders now stream s1 Hs1') as Hsend.
  destruct (callAction_with_stream now stream s1 Hs1')
    as (s2 & Hcall & H1 & H2 & _ & H3 & _ & H4 & H5 & H6).
  rewrite Hcall in Hsend. exists s2. rewrite Hcall. done.
Qed.

Lemma hangup_resets_for_next_call_witness :
  reachable calling /\ hangupButton_disabled calling = false /\
  exists s1 stream,
    step calling ClickHangup = (s1, None) /\ hangupAction calling = (s1, None) /\
    localPeerConnection s1 = Null /\ remotePeerConnection s1 = Null /\
    hangupButton_disabled s1 = true /\ callButton_disabled s1 = false /\
    localStream calling = Some stream /\ localStream s1 = Some stream /\
    exists s2,
      step s1 (ClickCall 9) = (s2, None) /\
      localPeerConnection s2 = Ref (length (heap s1)) /\
      remotePeerConnection s2 = Ref (S (length (heap s1))) /\
      senders <$> heap s2 !! length (heap s1) = Some stream /\
      localStream s2 = Some stream /\
      pending s2 = pending s1 ++ [CreateOffer (length (heap s1))] /\
      callButton_disabled s2 = true /\ hangupButton_disabled s2 = false.
Proof.
  split; [exact reachable_calling|]. split; [reflexivity|].
  exact (hangup_resets_for_next_call calling 9 reachable_calling eq_refl).
Defined.

(** ** The camera is asked for once *)

Lemma elem_of_discharge_discharge (q p : pending_op) l :
  q ∈ discharge q (discharge p l) -> q ∈ discharge q l.
Proof.
  induction l as [|x l IH]; cbn; [done|].
  destruct (decide (p = x)) as [->|Hpx]; cbn.
  - intros Hq. case_decide; [by eapply elem_of_discharge|].
    apply elem_of_cons; by right.
  - case_decide as Hqx.
    + apply elem_of_discharge.
    + intros [->|Hq]%elem_of_cons; [done|]. apply elem_of_cons; right; auto.
Qed.

Lemma elem_of_discharge_app (q : pending_op) l k :
  q ∈ discharge q (l ++ k) -> q ∈ discharge q l \/ q ∈ k.
Proof.
  induction l as [|x l IH]; cbn.
  - intros Hq. right. by eapply elem_of_discharge.
  - case_decide as Hqx.
    + intros [?|?]%elem_of_app; auto.
    + intros [->|Hq]%elem_of_cons; [done|].
      destruct (IH Hq) as [?|?]; [left|by right].
      apply elem_of_cons; by right.
Qed.

Lemma discharge_snoc (q : pending_op) l : q ∉ l -> discharge q (l ++ [q]) = l.
Proof.
  induction l as [|x l IH]; cbn; intros Hq.
  - by rewrite decide_True.
  - apply not_elem_of_cons in Hq as [Hne Hq].
    rewrite decide_False by done. by rewrite IH.
Qed.

Lemma media_once_initial b : media_once (initial b).
Proof.
  split; cbn; try done.
  - intros _ ?%elem_of_nil. done.
  - intros ?%elem_of_nil. done.
Qed.

(** A turn that leaves the session variables alone and starts no
    [getUserMedia]. *)
Lemma media_once_frame s s' :
  same_session s s' ->
  (GetUserMedia ∈ pending s' -> GetUserMedia ∈ pending s) ->
  (GetUserMedia ∈ discharge GetUserMedia (pending s') ->
   GetUserMedia ∈ discharge GetUserMedia (pending s)) ->
  media_once s -> media_once s'.
Proof.
  intros [_ _ Hl Hr Hs Hc Hh _ _] Hsub Hsub' [Hen Honce Hidle]. split.
  - rewrite Hs. intros Hf Hin. by apply (Hen Hf), Hsub.
  - intros Hin. by apply Honce, Hsub'.
  - rewrite Hs, Hl, Hr, Hc, Hh. intros [Hin|Hf]; apply Hidle; auto.
Qed.

Lemma media_once_busy s :
  media_once s ->
  callButton_disabled s = false \/ hangupButton_disabled s = false ->
  (GetUserMedia ∉ pending s) /\ startButton_disabled s = true.
Proof.
  intros [_ _ Hidle] Hor. split.
  - intros Hin. destruct Hidle as (? & ? & _); [by left|].
    destruct Hor; congruence.
  - destruct (startButton_disabled s) eqn:Hs; [done|].
    destruct Hidle as (? & ? & _); [by right|]. destruct Hor; congruence.
Qed.

Lemma step_media_once s e :
  consistent s -> media_once s -> media_once (step s e).1.
Proof.
  intros Hc Hm. pose proof Hm as [Hen Honce Hidle].
  destruct e as [|now| |target c|target st|p o]; cbn.
  - destruct (startButton_disabled s) eqn:Hs; cbn; [done|].
    split; cbn; [done| |].
    + rewrite discharge_snoc by auto. auto.
    + intros _. rewrite <- Hs in Hidle. apply Hidle. by right.
  - destruct (callButton_disabled s) eqn:Hcall; cbn; [done|].
    destruct (c_call _ Hc Hcall) as [stream Hst].
    destruct (callAction_with_stream now stream s Hst)
      as (s' & -> & _ & _ & _ & _ & Hsd & _ & _ & Hp). cbn.
    destruct (media_once_busy s Hm) as [Hno Htrue]; [by left|].
    split; rewrite ?Hsd, ?Hp, ?Htrue; try done.
    + intros [Hin|Hin]%elem_of_discharge_app; [done|].
      by apply list_elem_of_singleton in Hin.
    + intros [[Hin|Hin]%elem_of_app|Hf]; try done.
      by apply list_elem_of_singleton in Hin.
  - destruct (hangupButton_disabled s) eqn:Hh; cbn; [done|].
    destruct (c_hangup _ Hc Hh) as [l Hl].
    destruct (consistent_paired_live _ _ Hc Hl) as (r & Hr & _).
    destruct (hangupAction_live l r s Hl Hr)
      as (s' & -> & _ & _ & _ & _ & Hsd & _ & _ & Hp & _). cbn.
    destruct (media_once_busy s Hm) as [Hno Htrue]; [by right|].
    split; rewrite ?Hsd, ?Hp, ?Htrue; try done.
    intros [Hin|Hf]; done.
  - case_decide; cbn; [|done]. destruct c as [c|]; [|done].
    destruct (handleConnection_candidate target c s) as [_ Hp].
    apply (media_once_frame s);
      [apply handleConnection_same_session| | |done];
      destruct (getOtherPeer (Ref target) s) as [| |other]; rewrite Hp;
      try done.
    + intros [Hin|Hin]%elem_of_app; [done|].
      by apply list_elem_of_singleton in Hin.
    + intros [Hin|Hin]%elem_of_discharge_app; [done|].
      by apply list_elem_of_singleton in Hin.
  - case_decide; cbn; [|done].
    apply (media_once_frame s); [|done..].
    eapply same_session_trans;
      [|apply handleConnectionChange_same_session]. apply same_session_refl.
  - case_decide as Hin; cbn; [|done].
    destruct (resume p o _) as [s'|] eqn:Hres; cbn; [|done].
    destruct (resume_pending _ _ _ _ Hres) as (extra & Hp & Hex). cbn in Hp.
    assert (GetUserMedia ∉ extra) as Hnex.
    { intros Hg. rewrite Forall_forall in Hex. by destruct (Hex _ Hg). }
    destruct (decide (p = GetUserMedia)) as [->|Hne].
    + assert (startButton_disabled s = true) as Htrue.
      { destruct (startButton_disabled s) eqn:Hs; [done|]. by destruct Hen. }
      assert (startButton_disabled s' = true /\ extra = []) as [Hs' ->].
      { destruct o as [[]|]; simplify_eq/=; split; try done;
          cbn in Hp; rewrite <- (app_nil_r (discharge _ _)) in Hp at 1;
          by apply app_inv_head in Hp. }
      rewrite app_nil_r in Hp.
      split; rewrite ?Hs', ?Hp; try done.
      * intros Hg. by apply Honce, (elem_of_discharge GetUserMedia).
      * intros [Hg|Hf]; done.
    + apply (media_once_frame s).
      * eapply same_session_trans;
          [|eapply resume_same_session; eassumption]. by split.
      * rewrite Hp. intros [Hg|Hg]%elem_of_app; [|done].
        by eapply elem_of_discharge.
      * rewrite Hp. intros [Hg|Hg]%elem_of_discharge_app; [|done].
        by apply (elem_of_discharge_discharge _ p).
      * done.
Qed.




Lemma reachable_ended : reachable ended.
Proof.
  unfold ended.
  exists false,
    [ClickStart; Settle GetUserMedia (Fulfilled (VStream camera)); ClickCall 5;
     IceCandidate 0 (Some host); ClickHangup].
  reflexivity.
Defined.



(** What the late continuations of [ended] leave on the console. *)
Example late_offer_is_logged :
  console (exec ended
             [Settle (CreateOffer 0) (Fulfilled (VDescription O1))])
  = console ended ++
    [Traced ("Offer from localPeerConnection:" +:+ nl +:+ "O1");
     Traced "localPeerConnection setLocalDescription start.";
     Traced "Failed to create session description: TypeError: Cannot read properties of null (reading 'setLocalDescription').";
     Traced "remotePeerConnection setRemoteDescription start";
     Traced "Failed to create session description: TypeError: Cannot read properties of null (reading 'setRemoteDescription').";
     Traced "remotePeerConnection createAnswer start.";
     Traced "Failed to create session description: TypeError: Cannot read properties of null (reading 'createAnswer')."].
Proof. vm_compute. reflexivity. Qed.

(* ------------------------------------------------------------------ *)
(** * Further properties of the script *)

(** ** [trace] and the console *)

Lemma trimEnd_idemp s : trimEnd (trimEnd s) = trimEnd s.
Proof.
  induction s as [|c s IH]; [done|].
  change (trimEnd (String c s)) with
    (match trimEnd s with
     | EmptyString => if is_space c then EmptyString else String c EmptyString
     | r' => String c r'
     end).
  destruct (trimEnd s) as [|c' s'] eqn:Hs.
  - destruct (is_space c) eqn:Hc; [done|]. cbn. by rewrite Hc.
  - change (trimEnd (String c (String c' s'))) with
      (match trimEnd (String c' s') with
       | EmptyString => if is_space c then EmptyString else String c EmptyString
       | r' => String c r'
       end).
    by rewrite IH.
Qed.

Lemma trimEnd_head c s :
  is_space c = false -> exists r, trimEnd (String c s) = String c r.
Proof.
  intros Hc.
  change (trimEnd (String c s)) with
    (match trimEnd s with
     | EmptyString => if is_space c then EmptyString else String c EmptyString
     | r' => String c r'
     end).
  rewrite Hc. destruct (trimEnd s); by eexists.
Qed.

Lemma trimStart_head s :
  trimStart s = EmptyString \/
  exists c r, trimStart s = String c r /\ is_space c = false.
Proof.
  induction s as [|c s IH]; [by left|]. cbn.
  destruct (is_space c) eqn:Hc; [done|]. right. by exists c, s.
Qed.

(** Trimming twice is trimming once. *)
Lemma trim_idemp s : trim (trim s) = trim s.
Proof.
  unfold trim. destruct (trimStart_head s) as [->|(c & r & -> & Hc)]; [done|].
  destruct (trimEnd_head c r Hc) as [r' Hr]. rewrite Hr.
  assert (trimStart (String c r') = String c r') as ->.
  { cbn. by rewrite Hc. }
  rewrite <- Hr. apply trimEnd_idemp.
Qed.

Lemma foldl_addTrack_console l ts s :
  console (foldl (fun s t => update_peer l (did_addTrack t) s) s ts)
  = console s.
Proof.
  revert s. induction ts as [|t ts IH]; intros s; cbn; [done|]. by rewrite IH.
Qed.

Lemma foldl_addTrack_length l ts s :
  length (heap (foldl (fun s t => update_peer l (did_addTrack t) s) s ts))
  = length (heap s).
Proof. apply foldl_addTrack_same_session. Qed.

Ltac console_grows :=
  cbn; rewrite ?foldl_addTrack_console; cbn; rewrite <- ?app_assoc;
  eexists; split; [reflexivity|];
  repeat (apply Forall_cons; split; [first [apply trim_idemp | exact I]|]);
  by apply Forall_nil.

(** One turn of the event loop appends to the console, trimmed lines
    only, and removes no object. *)
Lemma step_console_heap s e :
  (exists k, console (step s e).1 = console s ++ k /\ Forall trimmed_entry k) /\
  length (heap s) <= length (heap (step s e).1).
Proof.
  destruct e as [|now| |target c|target st|p o]; cbn.
  - destruct (startButton_disabled s); cbn;
      [split; [exists []; by rewrite app_nil_r|done]|].
    split; [console_grows|done].
  - destruct (callButton_disabled s); cbn;
      [split; [exists []; by rewrite app_nil_r|done]|].
    unfold callAction, allocate. cbn.
    destruct (localStream s) as [stream|]; [|split; [console_grows|done]].
    destruct (getVideoTracks stream), (getAudioTracks stream); cbn;
      rewrite foldl_addTrack_length; cbn; rewrite !length_app; cbn;
      (split; [console_grows|lia]).
  - destruct (hangupButton_disabled s); cbn;
      [split; [exists []; by rewrite app_nil_r|done]|].
    unfold hangupAction.
    destruct (localPeerConnection s); cbn;
      try (split; [exists []; by rewrite app_nil_r|done]).
    destruct (remotePeerConnection s); cbn; rewrite ?length_alter;
      try (split; [exists []; by rewrite app_nil_r|done]).
    split; [console_grows|done].
  - case_decide; cbn; [|split; [exists []; by rewrite app_nil_r|done]].
    destruct c as [c|]; cbn; [|split; [exists []; by rewrite app_nil_r|done]].
    unfold handleConnection.
    destruct (getOtherPeer (Ref target) s); unfold_handlers; cbn;
      (split; [first [exists []; by rewrite app_nil_r | console_grows]|done]).
  - case_decide; cbn; [|split; [exists []; by rewrite app_nil_r|done]].
    rewrite length_alter. split; [|done]. unfold_handlers. console_grows.
  - case_decide; cbn; [|split; [exists []; by rewrite app_nil_r|done]].
    destruct (resume p o _) as [s'|] eqn:Hr; cbn;
      [|split; [exists []; by rewrite app_nil_r|done]].
    destruct p, o as [[]|]; try done; simplify_eq/=;
      unfold_handlers; cbn; repeat (case_match; cbn); rewrite ?length_alter;
      (split; [first [exists []; by rewrite app_nil_r | console_grows]|done]).
Qed.

(** X5: whatever the events, the console only grows at its end and the
    heap loses no object: every line once logged stays where it is, and
    a reference into the heap stays valid. *)
Theorem console_and_heap_only_grow (s : state) (es : list event) :
  console s `prefix_of` console (exec s es) /\
  length (heap s) <= length (heap (exec s es)).
Proof.
  revert s. induction es as [|e es IH]; intros s; [done|].
  rewrite exec_cons. destruct (IH (step s e).1) as [Hc Hh].
  destruct (step_console_heap s e) as [(k & Hk & _) Hl]. split; [|lia].
  etrans; [|exact Hc]. rewrite Hk. by apply prefix_app_r.
Qed.

Lemma exec_console_trimmed s es :
  Forall trimmed_entry (console s) ->
  Forall trimmed_entry (console (exec s es)).
Proof.
  revert s. induction es as [|e es IH]; intros s Hs; [done|].
  rewrite exec_cons. apply IH.
  destruct (step_console_heap s e) as [(k & -> & Hk) _].
  by apply Forall_app.
Qed.

(** X9: every line [trace] has put on the console of the page is
    trimmed: it neither starts nor ends with white space, whatever text
    (a session description ending in a line break, say) was traced. *)
Theorem traced_lines_are_trimmed (s : state) (text : string) :
  reachable s ->
  Traced text ∈ console s ->
  trim text = text /\ trimStart text = text /\ trimEnd text = text.
Proof.
  intros (b & es & ->) Hin.
  pose proof (exec_console_trimmed (initial b) es (Forall_nil_2 _)) as Hall.
  rewrite Forall_forall in Hall. specialize (Hall _ Hin). cbn in Hall.
  split; [done|]. unfold trim in Hall. split.
  - destruct (trimStart_head text) as [He|(c & r & He & Hc)].
    + rewrite He in Hall. cbn in Hall. by rewrite <- Hall.
    + rewrite He in Hall. destruct (trimEnd_head c r Hc) as [r' Hr].
      rewrite Hr in Hall. rewrite <- Hall. cbn. by rewrite Hc.
  - rewrite <- Hall at 1. rewrite trimEnd_idemp. done.
Qed.

Lemma traced_lines_are_trimmed_witness :
  reachable calling /\ Traced "Using video device: cam." ∈ console calling /\
  trim "Using video device: cam." = "Using video device: cam.".
Proof.
  assert (Traced "Using video device: cam." ∈ console calling) as Hin.
  { vm_compute. do 3 apply list_elem_of_further. apply list_elem_of_here. }
  split; [exact reachable_calling|]. split; [exact Hin|].
  exact (proj1 (traced_lines_are_trimmed calling _ reachable_calling Hin)).
Defined.

(** ** The objects of the heap *)

Lemma list_alter_alter (f g : peer -> peer) i (h : list peer) :
  alter f i (alter g i h) = alter (fun p => f (g p)) i h.
Proof.
  revert i. induction h as [|p h IH]; intros [|i]; cbn; try done.
  f_equal. apply IH.
Qed.

Lemma foldl_addTrack_heap l ts s :
  heap (foldl (fun s t => update_peer l (did_addTrack t) s) s ts)
  = alter (did_addTracks ts) l (heap s).
Proof.
  revert s. induction ts as [|t ts IH]; intros s; cbn.
  - by rewrite list_alter_id.
  - rewrite IH. cbn. by rewrite list_alter_alter.
Qed.

Lemma did_addTracks_fields ts p :
  closed (did_addTracks ts p) = closed p /\
  senders (did_addTracks ts p) = senders p ++ ts /\
  localDescription (did_addTracks ts p) = localDescription p /\
  remoteDescription (did_addTracks ts p) = remoteDescription p /\
  remoteCandidates (did_addTracks ts p) = remoteCandidates p.
Proof.
  revert p. induction ts as [|t ts IH]; intros p.
  - cbn. by rewrite app_nil_r.
  - change (did_addTracks (t :: ts) p)
      with (did_addTracks ts (did_addTrack t p)).
    destruct (IH (did_addTrack t p)) as (-> & -> & -> & -> & ->). cbn.
    by rewrite <- app_assoc.
Qed.

(** The heap after [callAction]: the objects it found and two new ones,
    the first with the tracks of the stream. *)
Lemma callAction_heap now stream s :
  localStream s = Some stream ->
  heap (callAction now s).1
  = heap s ++ [did_addTracks (getTracks stream) new_peer; new_peer].
Proof.
  intros Hs. unfold callAction, allocate. cbn. rewrite Hs.
  destruct (getVideoTracks stream), (getAudioTracks stream); cbn;
    rewrite foldl_addTrack_heap; cbn;
    rewrite <- app_assoc; rewrite alter_app_r_alt by lia;
    by rewrite Nat.sub_diag.
Qed.

(** The heap after [hangupAction] in a session. *)
Lemma hangupAction_heap l r s :
  localPeerConnection s = Ref l -> remotePeerConnection s = Ref r ->
  heap (hangupAction s).1 = alter did_close r (alter did_close l (heap s)).
Proof. intros Hl Hr. unfold hangupAction. rewrite Hl. cbn. by rewrite Hr. Qed.

(** A continuation mutates one object at most, and benignly. *)
Lemma resume_heap p o s s' :
  resume p o s = Some s' ->
  heap s' = heap s \/
  exists t f, benign f /\ heap s' = alter f t (heap s).
Proof.
  intros Hr. destruct p, o as [[]|]; try done; simplify_eq/=;
    unfold_handlers; cbn; repeat (case_match; cbn);
    first [ by left
          | right; eexists _, _; split; [|reflexivity]; by intros [] ].
Qed.

Lemma lookup_alter_benign f t (h : list peer) a p' :
  benign f -> alter f t h !! a = Some p' ->
  exists p, h !! a = Some p /\ closed p' = closed p /\ senders p' = senders p.
Proof.
  intros Hf. destruct (decide (t = a)) as [->|Hne].
  - rewrite list_lookup_alter_eq. destruct (h !! a) as [p|]; [|done].
    cbn. intros [= <-]. exists p. split; [done|]. apply Hf.
  - rewrite list_lookup_alter_ne by done. intros Hp. by exists p'.
Qed.

Lemma heap_tidy_frame s s' :
  localStream s' = localStream s ->
  localPeerConnection s' = localPeerConnection s ->
  remotePeerConnection s' = remotePeerConnection s ->
  (heap s' = heap s \/ exists t f, benign f /\ heap s' = alter f t (heap s)) ->
  heap_tidy s -> heap_tidy s'.
Proof.
  intros Hst Hl Hr Hh [Ho Hlo Hre].
  assert (forall a p', heap s' !! a = Some p' ->
            exists p, heap s !! a = Some p /\ closed p' = closed p /\
                      senders p' = senders p) as Hlook.
  { intros a p' Hp'. destruct Hh as [Heq|(t & f & Hf & Heq)]; rewrite Heq in Hp'.
    - by exists p'.
    - by eapply lookup_alter_benign. }
  split; rewrite ?Hl, ?Hr, ?Hst.
  - intros a p' Hp' Hc. destruct (Hlook _ _ Hp') as (p & Hp & Hcl & _).
    apply (Ho a p Hp). congruence.
  - intros l p' Hl' Hp'. destruct (Hlook _ _ Hp') as (p & Hp & -> & ->).
    by apply (Hlo l).
  - intros r p' Hr' Hp'. destruct (Hlook _ _ Hp') as (p & Hp & -> & ->).
    by apply (Hre r).
Qed.

(** ** The buttons and the session *)

Lemma truthful_initial b : truthful (initial b).
Proof.
  split; cbn.
  - split; [done|]. by intros [? ?].
  - split; [done|]. by intros [[? ?] _].
  - by intros [? ?].
Qed.

Lemma truthful_frame s s' :
  same_session s s' ->
  (GetUserMedia ∈ pending s' -> GetUserMedia ∈ pending s) ->
  truthful s -> truthful s'.
Proof.
  intros [Hst _ Hl _ Hs Hc Hh _ _] Hsub [H1 H2 H3].
  split; rewrite ?Hst, ?Hl, ?Hs, ?Hc, ?Hh; try done.
  intros Hsome. destruct (H3 Hsome) as [Hno ?]. split; [|done].
  intros Hin. by apply Hno, Hsub.
Qed.

Lemma step_truthful s e :
  consistent s -> media_once s -> truthful s -> truthful (step s e).1.
Proof.
  intros Hc Hm Ht. pose proof Ht as [H1 H2 H3].
  destruct e as [|now| |target c|target st|p o]; cbn.
  - destruct (startButton_disabled s) eqn:Hs; cbn; [done|].
    assert (localStream s = None) as Hnone.
    { destruct (localStream s) eqn:Hst; [|done].
      destruct H3 as [_ ?]; [by eexists|congruence]. }
    split; cbn; [done|done|]. rewrite Hnone. by intros [? ?].
  - destruct (callButton_disabled s) eqn:Hcall; cbn; [done|].
    destruct (c_call _ Hc Hcall) as [stream Hst].
    destruct (callAction_with_stream now stream s Hst)
      as (s' & -> & Hl & _ & _ & Hst' & Hsd & Hcd & Hhd & Hp). cbn.
    destruct H3 as [Hno Htrue]; [by eexists|].
    split; rewrite ?Hl, ?Hst', ?Hsd, ?Hcd, ?Hhd, ?Hp.
    + split; [by eexists|done].
    + split; [done|]. by intros [_ ?].
    + intros _. split; [|done].
      intros [Hin|Hin]%elem_of_app; [done|].
      by apply list_elem_of_singleton in Hin.
  - destruct (hangupButton_disabled s) eqn:Hh; cbn; [done|].
    destruct (c_hangup _ Hc Hh) as [l Hl].
    destruct (consistent_paired_live _ _ Hc Hl) as (r & Hr & _).
    destruct (c_hangup_stream _ Hc Hh) as [stream Hst].
    destruct (hangupAction_live l r s Hl Hr)
      as (s' & -> & Hl' & _ & Hhd & Hcd & Hsd & Hst' & _ & Hp & _). cbn.
    split; rewrite ?Hl', ?Hst', ?Hsd, ?Hcd, ?Hhd, ?Hp.
    + split; [done|]. by intros [? ?].
    + split; [|done]. intros _. split; [by eexists|done].
    + done.
  - case_decide; cbn; [|done]. destruct c as [c|]; [|done].
    destruct (handleConnection_candidate target c s) as [_ Hp].
    apply (truthful_frame s); [apply handleConnection_same_session| |done].
    destruct (getOtherPeer (Ref target) s); rewrite Hp; try done.
    intros [Hin|Hin]%elem_of_app; [done|].
    by apply list_elem_of_singleton in Hin.
  - case_decide; cbn; [|done].
    apply (truthful_frame s); [|done..].
    eapply same_session_trans;
      [|apply handleConnectionChange_same_session]. apply same_session_refl.
  - case_decide as Hin; cbn; [|done].
    destruct (resume p o _) as [s'|] eqn:Hres; cbn; [|done].
    destruct (decide (p = GetUserMedia)) as [->|Hne].
    + destruct (m_idle _ Hm) as (_ & Hhd & _); [by left|].
      assert (startButton_disabled s = true) as Htrue.
      { destruct (startButton_disabled s) eqn:Hs; [done|].
        by destruct (m_enabled _ Hm). }
      pose proof (m_once _ Hm) as Honce.
      destruct o as [[]|]; simplify_eq/=.
      * split; cbn; [done| |done]. split; [|done]. intros _.
        split; [by eexists|done].
      * apply (truthful_frame s); [by split| |done]. cbn.
        apply elem_of_discharge.
    + destruct (resume_pending _ _ _ _ Hres) as (extra & Hp & Hex).
      cbn in Hp. apply (truthful_frame s); [| |done].
      * eapply same_session_trans;
          [|eapply resume_same_session; eassumption]. by split.
      * rewrite Hp. intros [Hg|Hg]%elem_of_app; [by eapply elem_of_discharge|].
        rewrite Forall_forall in Hex. by destruct (Hex _ Hg).
Qed.

Lemma step_heap_tidy s e :
  consistent s -> media_once s -> truthful s -> heap_tidy s ->
  heap_tidy (step s e).1.
Proof.
  intros Hc Hm Ht Hh. pose proof Hh as [Ho Hlo Hre].
  destruct e as [|now| |target c|target st|p o]; cbn.
  - destruct (startButton_disabled s); cbn; [done|].
    apply (heap_tidy_frame s); try done. by left.
  - destruct (callButton_disabled s) eqn:Hcall; cbn; [done|].
    destruct (c_call _ Hc Hcall) as [stream Hst].
    pose proof (callAction_heap now stream s Hst) as Hheap.
    destruct (callAction_with_stream now stream s Hst)
      as (s' & Heq & Hl & Hr & _ & Hst' & _). rewrite Heq in *. cbn in *.
    assert (forall a p, heap s !! a = Some p -> closed p = true) as Hclosed.
    { intros a p Hp. destruct (closed p) eqn:Hcl; [done|].
      destruct (proj1 (tr_call _ Ht) Hcall) as [_ Hhd].
      assert (exists l, localPeerConnection s = Ref l) as [l Hl0].
      { destruct (Ho a p Hp Hcl) as [?|Hr0]; [by eexists|].
        destruct Hc as [Hpair _ _ _]. unfold paired in Hpair.
        rewrite Hr0 in Hpair. destruct (localPeerConnection s); try done.
        by eexists. }
      assert (hangupButton_disabled s = false) as Hf
        by (apply (tr_hangup _ Ht); by eexists).
      congruence. }
    destruct (did_addTracks_fields (getTracks stream) new_peer)
      as (Hcl & Hse & _).
    split; rewrite ?Hl, ?Hr, ?Hst', Hheap.
    + intros a p Hp Hcp.
      destruct (decide (a < length (heap s))) as [Hlt|Hge].
      * rewrite lookup_app_l in Hp by done.
        rewrite (Hclosed _ _ Hp) in Hcp. done.
      * destruct (decide (a = length (heap s))) as [->|Hne]; [by left|].
        destruct (decide (a = S (length (heap s)))) as [->|Hne']; [by right|].
        apply lookup_lt_Some in Hp. rewrite length_app in Hp. cbn in Hp. lia.
    + intros l p [= <-]. rewrite list_lookup_middle by done. intros [= <-].
      split; [done|]. intros st [= <-]. by rewrite Hse.
    + intros r p [= <-].
      rewrite (lookup_app_r (heap s)) by lia.
      replace (S (length (heap s)) - length (heap s)) with 1 by lia. cbn.
      by intros [= <-].
  - destruct (hangupButton_disabled s) eqn:Hhd; cbn; [done|].
    destruct (c_hangup _ Hc Hhd) as [l Hl].
    destruct (consistent_paired_live _ _ Hc Hl) as (r & Hr & _).
    pose proof (hangupAction_heap l r s Hl Hr) as Hheap.
    destruct (hangupAction_live l r s Hl Hr)
      as (s' & Heq & Hl' & Hr' & _). rewrite Heq in *. cbn in *.
    split; rewrite ?Hl', ?Hr', ?Hheap; try done.
    intros a p Hp Hcp. exfalso.
    destruct (decide (r = a)) as [->|Hra].
    { rewrite list_lookup_alter_eq in Hp.
      destruct (alter did_close l (heap s) !! a); simplify_eq/=. }
    rewrite list_lookup_alter_ne in Hp by done.
    destruct (decide (l = a)) as [->|Hla].
    { rewrite list_lookup_alter_eq in Hp.
      destruct (heap s !! a); simplify_eq/=. }
    rewrite list_lookup_alter_ne in Hp by done.
    destruct (Ho a p Hp Hcp); congruence.
  - case_decide; cbn; [|done]. destruct c as [c|]; [|done].
    destruct (handleConnection_candidate target c s) as [Hheap _].
    destruct (handleConnection_same_session target (Some c) s).
    apply (heap_tidy_frame s); try done. by left.
  - case_decide; cbn; [|done].
    apply (heap_tidy_frame s); try done. right.
    exists target, (did_iceState st). split; [by intros []|done].
  - case_decide as Hin; cbn; [|done].
    destruct (resume p o _) as [s'|] eqn:Hres; cbn; [|done].
    destruct (decide (p = GetUserMedia)) as [->|Hne].
    + destruct (m_idle _ Hm) as (_ & _ & Hl & Hr); [by left|].
      destruct o as [[]|]; simplify_eq/=.
      * split; cbn; rewrite ?Hl, ?Hr; try done.
        intros a p Hp Hcp. destruct (Ho a p Hp Hcp); congruence.
      * apply (heap_tidy_frame s); try done. by left.
    + destruct (resume_same_session _ _ _ _ Hne Hres) as [? _ ? ? _ _ _ _ _].
      apply (heap_tidy_frame s); try done.
      by apply (resume_heap _ _ _ _ Hres).
Qed.

Lemma heap_tidy_initial b : heap_tidy (initial b).
Proof. by split. Qed.

(** What holds of every state of the page. *)
Lemma reachable_invariants s :
  reachable s -> consistent s /\ media_once s /\ truthful s /\ heap_tidy s.
Proof.
  intros (b & es & ->).
  assert (forall s0,
            consistent s0 /\ media_once s0 /\ truthful s0 /\ heap_tidy s0 ->
            consistent (exec s0 es) /\ media_once (exec s0 es) /\
            truthful (exec s0 es) /\ heap_tidy (exec s0 es)) as H.
  { induction es as [|e es IH]; intros s0 (Hc & Hm & Ht & Hh); [done|].
    rewrite exec_cons. apply IH.
    split; [by apply step_consistent|]. split; [by apply step_media_once|].
    split; [by apply step_truthful|by apply step_heap_tidy]. }
  apply H. split; [apply consistent_initial|].
  split; [apply media_once_initial|].
  split; [apply truthful_initial|apply heap_tidy_initial].
Qed.

(** X1: on the page the buttons tell the truth about the session.  The
    hangup button is enabled exactly while the two variables hold two
    (different) connections; the call button is enabled exactly when a
    stream is acquired and no call is placed; the two are never enabled
    together; and as long as the start button is enabled nothing else
    is, and no stream is held. *)
Theorem buttons_reflect_session (s : state) :
  reachable s ->
  (hangupButton_disabled s = false <->
   exists l r, localPeerConnection s = Ref l /\
               remotePeerConnection s = Ref r /\ l <> r) /\
  (callButton_disabled s = false <->
   is_Some (localStream s) /\ hangupButton_disabled s = true) /\
  ~ (callButton_disabled s = false /\ hangupButton_disabled s = false) /\
  (startButton_disabled s = false ->
   callButton_disabled s = true /\ hangupButton_disabled s = true /\
   localStream s = None).
Proof.
  intros Hreach.
  destruct (reachable_invariants s Hreach) as (Hc & Hm & [H1 H2 H3] & _).
  split; [|split; [done|split]].
  - rewrite H1. split.
    + intros [l Hl].
      destruct (consistent_paired_live _ _ Hc Hl) as (r & Hr & Hne & _).
      by exists l, r.
    + intros (l & _ & Hl & _). by exists l.
  - intros [Hcall Hh]. apply H2 in Hcall as [_ ?]. congruence.
  - intros Hs. destruct (m_idle _ Hm) as (? & ? & _); [by right|].
    split; [done|]. split; [done|].
    destruct (localStream s) eqn:Hst; [|done].
    destruct H3 as [_ ?]; [by eexists|congruence].
Qed.

Lemma buttons_reflect_session_witness :
  reachable calling /\ hangupButton_disabled calling = false /\
  exists l r, localPeerConnection calling = Ref l /\
              remotePeerConnection calling = Ref r /\ l <> r.
Proof.
  split; [exact reachable_calling|]. split; [reflexivity|].
  exact (proj1 (proj1 (buttons_reflect_session calling reachable_calling))
           eq_refl).
Defined.

Lemma step_start_disabled s e :
  consistent s -> startButton_disabled s = true ->
  startButton_disabled (step s e).1 = true.
Proof.
  intros Hc Hs. destruct e as [|now| |target c|target st|p o]; cbn.
  - by rewrite Hs.
  - destruct (callButton_disabled s) eqn:Hcall; cbn; [done|].
    destruct (c_call _ Hc Hcall) as [stream Hst].
    destruct (callAction_with_stream now stream s Hst)
      as (s' & -> & _ & _ & _ & _ & Hsd & _). cbn. congruence.
  - destruct (hangupButton_disabled s) eqn:Hh; cbn; [done|].
    destruct (c_hangup _ Hc Hh) as [l Hl].
    destruct (consistent_paired_live _ _ Hc Hl) as (r & Hr & _).
    destruct (hangupAction_live l r s Hl Hr)
      as (s' & -> & _ & _ & _ & _ & Hsd & _). cbn. congruence.
  - case_decide; cbn; [|done].
    by rewrite (ss_start _ _ (handleConnection_same_session target c s)).
  - case_decide; cbn; done.
  - case_decide; cbn; [|done].
    destruct (resume p o _) as [s'|] eqn:Hres; cbn; [|done].
    destruct (decide (p = GetUserMedia)) as [->|Hne].
    + destruct o as [[]|]; by simplify_eq/=.
    + by rewrite (ss_start _ _ (resume_same_session _ _ _ _ Hne Hres)).
Qed.

Lemma step_stream_stable s e st :
  consistent s -> truthful s -> localStream s = Some st ->
  localStream (step s e).1 = Some st.
Proof.
  intros Hc Ht Hst. destruct e as [|now| |target c|target st'|p o]; cbn.
  - by destruct (startButton_disabled s).
  - destruct (callButton_disabled s) eqn:Hcall; cbn; [done|].
    by destruct (callAction_with_stream now st s Hst)
      as (s' & -> & _ & _ & _ & ? & _).
  - destruct (hangupButton_disabled s) eqn:Hh; cbn; [done|].
    destruct (c_hangup _ Hc Hh) as [l Hl].
    destruct (consistent_paired_live _ _ Hc Hl) as (r & Hr & _).
    destruct (hangupAction_live l r s Hl Hr)
      as (s' & -> & _ & _ & _ & _ & _ & Hst' & _). cbn. congruence.
  - case_decide; cbn; [|done].
    by rewrite (ss_stream _ _ (handleConnection_same_session target c s)).
  - case_decide; cbn; done.
  - case_decide as Hin; cbn; [|done].
    destruct (resume p o _) as [s'|] eqn:Hres; cbn; [|done].
    assert (p <> GetUserMedia) as Hne.
    { intros ->. destruct (tr_stream _ Ht) as [Hno _]; [by eexists|done]. }
    by rewrite (ss_stream _ _ (resume_same_session _ _ _ _ Hne Hres)).
Qed.

(** X2: the camera is acquired once and for all.  On the page the start
    button, once disabled, is never enabled again; a stream, once
    stored in [localStream], is never replaced or dropped (not by a
    hangup either), and while it is held no [getUserMedia] is in
    flight. *)
Theorem stream_is_acquired_once (s : state) (es : list event) :
  reachable s ->
  (startButton_disabled s = true -> startButton_disabled (exec s es) = true) /\
  (forall st, localStream s = Some st ->
     localStream (exec s es) = Some st /\ GetUserMedia ∉ pending (exec s es)).
Proof.
  intros Hreach. split.
  - intros Hs. destruct (reachable_invariants s Hreach) as (Hc & _).
    clear Hreach. revert s Hc Hs.
    induction es as [|e es IH]; intros s Hc Hs; [done|].
    rewrite exec_cons. apply IH; [by apply step_consistent|].
    by apply step_start_disabled.
  - intros st Hst.
    assert (localStream (exec s es) = Some st) as Hst'.
    { revert s Hreach Hst. induction es as [|e es IH]; intros s Hr Hst; [done|].
      rewrite exec_cons. destruct (reachable_invariants s Hr) as (Hc & _ & Ht & _).
      apply IH; [by apply reachable_step|]. by apply step_stream_stable. }
    split; [done|].
    destruct (reachable_invariants _ (reachable_exec s es Hreach))
      as (_ & _ & Ht & _).
    destruct (tr_stream _ Ht) as [Hno _]; [by eexists|done].
Qed.

Lemma stream_is_acquired_once_witness :
  reachable calling /\ localStream calling = Some camera /\
  localStream
    (exec calling
       [ClickHangup; ClickStart;
        Settle GetUserMedia (Fulfilled (VStream []))]) = Some camera.
Proof.
  split; [exact reachable_calling|]. split; [reflexivity|].
  exact (proj1 (proj2 (stream_is_acquired_once calling _ reachable_calling)
                  camera eq_refl)).
Defined.

(** X3: no connection leaks.  On the page an object of the heap is open
    exactly when one of the two variables holds it: [callAction] opens
    its two connections only when none is open, and [hangupAction]
    closes both it lets go of. *)
Theorem open_connections_are_the_endpoints (s : state) (a : nat) (p : peer) :
  reachable s ->
  heap s !! a = Some p ->
  (closed p = false <->
   localPeerConnection s = Ref a \/ remotePeerConnection s = Ref a).
Proof.
  intros Hreach Hp.
  destruct (reachable_invariants s Hreach) as (_ & _ & _ & [Ho Hl Hr]).
  split; [by apply Ho|]. intros [Ha|Ha].
  - by destruct (Hl a p Ha Hp).
  - by destruct (Hr a p Ha Hp).
Qed.

Lemma open_connections_are_the_endpoints_witness :
  reachable ended /\
  heap ended !! 1 = Some (did_close new_peer) /\
  (closed (did_close new_peer) = false <->
   localPeerConnection ended = Ref 1 \/ remotePeerConnection ended = Ref 1).
Proof.
  split; [exact reachable_ended|]. split; [reflexivity|].
  exact (open_connections_are_the_endpoints ended 1 (did_close new_peer)
           reachable_ended eq_refl).
Defined.

(** X4: media goes one way.  In a call the local connection sends
    exactly the tracks of [localStream], in the stream's order, and the
    remote connection sends none; both are open. *)
Theorem only_local_endpoint_sends (s : state) (l : nat) :
  reachable s ->
  localPeerConnection s = Ref l ->
  exists r st pl pr,
    remotePeerConnection s = Ref r /\ localStream s = Some st /\
    heap s !! l = Some pl /\ heap s !! r = Some pr /\
    senders pl = getTracks st /\ senders pr = [] /\
    closed pl = false /\ closed pr = false.
Proof.
  intros Hreach Hl.
  destruct (reachable_invariants s Hreach) as (Hc & _ & Ht & [_ Hlo Hre]).
  destruct (consistent_paired_live _ _ Hc Hl) as (r & Hr & _ & Hnl & Hnr).
  assert (hangupButton_disabled s = false) as Hh
    by (apply (tr_hangup _ Ht); by eexists).
  destruct (c_hangup_stream _ Hc Hh) as [st Hst].
  destruct (lookup_lt_is_Some_2 _ _ Hnl) as [pl Hpl].
  destruct (lookup_lt_is_Some_2 _ _ Hnr) as [pr Hpr].
  destruct (Hlo l pl Hl Hpl) as [Hcl Hse].
  destruct (Hre r pr Hr Hpr) as [Hcr Hsr].
  exists r, st, pl, pr. repeat split; auto.
Qed.

Lemma only_local_endpoint_sends_witness :
  reachable offered /\ localPeerConnection offered = Ref 0 /\
  exists r st pl pr,
    remotePeerConnection offered = Ref r /\ localStream offered = Some st /\
    heap offered !! 0 = Some pl /\ heap offered !! r = Some pr /\
    senders pl = getTracks st /\ senders pr = [] /\
    closed pl = false /\ closed pr = false.
Proof.
  assert (reachable offered) as H.
  { unfold offered. eexists false, _. reflexivity. }
  split; [exact H|]. split; [reflexivity|].
  exact (only_local_endpoint_sends offered 0 H eq_refl).
Defined.

(** ** The relay, in order *)

Lemma exec_candidates target other cs s :
  target < length (heap s) ->
  getOtherPeer (Ref target) s = Ref other ->
  pending (exec s (candidate_events target cs))
  = pending s ++ relay_calls other target cs /\
  heap (exec s (candidate_events target cs)) = heap s.
Proof.
  revert s. induction cs as [|c cs IH]; intros s Hlt Ho.
  - cbn. by rewrite app_nil_r.
  - change (candidate_events target (c :: cs))
      with (IceCandidate target c :: candidate_events target cs).
    rewrite exec_cons. cbn [step]. rewrite decide_True by done. cbn [fst].
    pose proof (handleConnection_same_session target c s) as Hss.
    destruct (IH (handleConnection target c s)) as [Hp Hh].
    + by rewrite (ss_heap _ _ Hss).
    + unfold getOtherPeer in *.
      by rewrite (ss_local _ _ Hss), (ss_remote _ _ Hss).
    + rewrite Hp, Hh. destruct c as [c|]; [|done].
      destruct (handleConnection_candidate target c s) as [Hh' Hp'].
      rewrite Ho in Hp'. rewrite Hp', Hh'. unfold relay_calls. cbn.
      by rewrite <- app_assoc.
Qed.

(** X6: the relay keeps the order of emission.  In a session the
    candidate events of one endpoint lead to one [addIceCandidate] call
    each on the other endpoint, made in the order of the events; the
    events that end the candidates lead to none; no object is touched
    before a call settles. *)
Theorem relay_calls_keep_emission_order (s : state) (l r : nat)
    (cs : list (option ice_candidate)) :
  live l r s ->
  pending (exec s (candidate_events l cs)) = pending s ++ relay_calls r l cs /\
  pending (exec s (candidate_events r cs)) = pending s ++ relay_calls l r cs /\
  heap (exec s (candidate_events l cs)) = heap s /\
  heap (exec s (candidate_events r cs)) = heap s.
Proof.
  intros [Hl Hr Hne Hnl Hnr].
  destruct (exec_candidates l r cs s Hnl) as [? ?].
  { unfold getOtherPeer. by rewrite Hl, decide_True. }
  destruct (exec_candidates r l cs s Hnr) as [? ?].
  { unfold getOtherPeer. rewrite Hl, decide_False; [done|congruence]. }
  done.
Qed.

Lemma live_calling : live 0 1 calling.
Proof. split; try reflexivity; [lia|vm_compute; lia|vm_compute; lia]. Defined.

Lemma relay_calls_keep_emission_order_witness :
  live 0 1 calling /\
  pending (exec calling (candidate_events 0 [Some host; None; Some host]))
  = pending calling ++ relay_calls 1 0 [Some host; None; Some host].
Proof.
  split; [exact live_calling|].
  exact (proj1 (relay_calls_keep_emission_order calling 0 1
                  [Some host; None; Some host] live_calling)).
Defined.

(** X8: [getOtherPeer] and [getPeerName] in a call.  The two endpoints
    are each other's other peer and carry the two names; every other
    object (a connection of an earlier call, say) is taken for the
    remote endpoint: its other peer is the local endpoint and its name
    is "remotePeerConnection". *)
Theorem getOtherPeer_swaps_endpoints (s : state) (l : nat) :
  reachable s ->
  localPeerConnection s = Ref l ->
  exists r,
    remotePeerConnection s = Ref r /\
    getOtherPeer (Ref l) s = Ref r /\ getOtherPeer (Ref r) s = Ref l /\
    getOtherPeer (getOtherPeer (Ref l) s) s = Ref l /\
    getOtherPeer (getOtherPeer (Ref r) s) s = Ref r /\
    getPeerName (Ref l) s = "localPeerConnection" /\
    getPeerName (Ref r) s = "remotePeerConnection" /\
    forall a, a <> l ->
      getOtherPeer (Ref a) s = Ref l /\
      getPeerName (Ref a) s = "remotePeerConnection".
Proof.
  intros Hreach Hl. pose proof (reachable_consistent s Hreach) as Hc.
  destruct (consistent_paired_live _ _ Hc Hl) as (r & Hr & Hne & _).
  assert (getOtherPeer (Ref l) s = Ref r) as Hol.
  { unfold getOtherPeer. by rewrite Hl, decide_True. }
  assert (forall a, a <> l -> getOtherPeer (Ref a) s = Ref l) as Hoa.
  { intros a Ha. unfold getOtherPeer. rewrite Hl.
    rewrite decide_False; [done|congruence]. }
  assert (forall a, a <> l -> getPeerName (Ref a) s = "remotePeerConnection")
    as Hna.
  { intros a Ha. unfold getPeerName. rewrite Hl.
    rewrite decide_False; [done|congruence]. }
  exists r. rewrite Hol, (Hoa r), Hol by done.
  repeat split; auto.
  unfold getPeerName. by rewrite Hl, decide_True.
Qed.

Lemma getOtherPeer_swaps_endpoints_witness :
  reachable calling /\ localPeerConnection calling = Ref 0 /\
  exists r,
    remotePeerConnection calling = Ref r /\
    getOtherPeer (Ref 0) calling = Ref r /\
    getOtherPeer (Ref r) calling = Ref 0 /\
    getOtherPeer (getOtherPeer (Ref 0) calling) calling = Ref 0 /\
    getOtherPeer (getOtherPeer (Ref r) calling) calling = Ref r /\
    getPeerName (Ref 0) calling = "localPeerConnection" /\
    getPeerName (Ref r) calling = "remotePeerConnection" /\
    forall a, a <> 0 ->
      getOtherPeer (Ref a) calling = Ref 0 /\
      getPeerName (Ref a) calling = "remotePeerConnection".
Proof.
  split; [exact reachable_calling|]. split; [reflexivity|].
  exact (getOtherPeer_swaps_endpoints calling 0 reachable_calling eq_refl).
Defined.

(** X10: names after a hangup.  When the user hangs up while a relay
    call for a candidate of the local endpoint is in flight, and the
    call is rejected afterwards, the console receives "Ending call." and
    then the failure and the candidate lines under the name
    "remotePeerConnection": with [localPeerConnection] cleared,
    [getPeerName] no longer knows the local endpoint. *)
Theorem late_relay_failure_is_named_remote (s : state) (l r : nat)
    (c : ice_candidate) (e : js_error) :
  reachable s ->
  localPeerConnection s = Ref l ->
  AddIceCandidate r l c ∈ pending s ->
  console (exec s [ClickHangup; Settle (AddIceCandidate r l c) (Rejected e)])
  = console s ++
    [Traced "Ending call.";
     Traced (trim ("remotePeerConnection failed to add ICE Candidate:" +:+ nl
                   +:+ toString e +:+ "."));
     Traced (trim ("remotePeerConnection ICE candidate:" +:+ nl
                   +:+ candidate c))] /\
  uncaught s [ClickHangup; Settle (AddIceCandidate r l c) (Rejected e)] = [].
Proof.
  intros Hreach Hl Hin.
  destruct (reachable_invariants s Hreach) as (Hc & _ & Ht & _).
  split; [|by apply uncaught_consistent].
  destruct (consistent_paired_live _ _ Hc Hl) as (r' & Hr & _).
  assert (hangupButton_disabled s = false) as Hh
    by (apply (tr_hangup _ Ht); by eexists).
  destruct (hangupAction_live l r' s Hl Hr)
    as (s1 & Hact & Hl1 & _ & _ & _ & _ & _ & _ & Hp1 & Hc1).
  cbn [exec foldl step]. rewrite Hh, Hact. cbn [fst].
  rewrite decide_True by (by rewrite Hp1). cbn.
  unfold handleConnection_done, handleConnectionFailure, trace, getPeerName.
  cbn. rewrite Hl1, Hc1. rewrite decide_False by done.
  by rewrite <- !app_assoc.
Qed.

Lemma late_relay_failure_is_named_remote_witness :
  reachable offered /\ localPeerConnection offered = Ref 0 /\
  AddIceCandidate 1 0 host ∈ pending offered /\
  uncaught offered
    [ClickHangup; Settle (AddIceCandidate 1 0 host) (Rejected refused)] = [].
Proof.
  assert (reachable offered) as H.
  { unfold offered. eexists false, _. reflexivity. }
  assert (AddIceCandidate 1 0 host ∈ pending offered) as Hin.
  { vm_compute. apply list_elem_of_here. }
  split; [exact H|]. split; [reflexivity|]. split; [exact Hin|].
  exact (proj2 (late_relay_failure_is_named_remote offered 0 1 host refused
                  H eq_refl Hin)).
Defined.

(** ** The handshake, step by step *)







